(** * Room and game coordination of the MERN chat server

    A shallow embedding of the socket handlers of [server/src/server.ts]:
    the tic-tac-toe [move] handler, the type-race [timer] handler and
    [startGameClock].  Rooms and persisted games are finite maps, interval
    handles index a table of callbacks; every handler is a function from the
    state before to the state after together with the effects it performed,
    in program order. *)

From Stdlib Require Import ZArith List Bool Lia.
From stdpp Require Import base gmap strings list fin_maps pretty.
Import ListNotations.

Open Scope Z_scope.
Open Scope string_scope.
Open Scope list_scope.

(** ** Data model *)

(** One player slot of a tic-tac-toe room: [userId] is undefined ([None])
    or a string, [moves] is the array the handler pushes to. *)
Record PlayerSlot := mkSlot {
  userId : option string;
  username : string;
  moves : list Z
}.

Record Room := mkRoom {
  user1 : PlayerSlot;
  user2 : PlayerSlot
}.

(** The fields of [JoinRoomPayload] the [move] handler reads. *)
Record MovePayload := mkMove {
  pl_roomId : string;
  pl_userId : option string;
  pl_move : Z
}.

(** A participant of a type-race game and the persisted game document. *)
Record Player := mkPlayer {
  playerId : string;
  isPartyLeader : bool
}.

Record Game := mkGame {
  players : list Player;
  startTime : Z;
  isOpen : bool;
  isOver : bool
}.

Record TimerPayloadProps := mkTimerPayload {
  tp_playerId : string;
  tp_gameId : string
}.

(** What [CheckWin] hands back to the handler. *)
Record WinResult := mkWin {
  isWin : bool;
  pattern : option (list Z)
}.

(** Addressing of an emission: [socket.emit], [io.in(room)] / [io.to(room)],
    [socket.broadcast]. *)
Inductive Target :=
| ToSender
| ToRoom (room : string)
| ToOthers.

(** The payload shapes the handlers send. *)
Inductive Payload :=
| PEmpty
| PMove (move : Z) (uid : option string)
| PWin (uid : option string) (uname : string) (pat : option (list Z))
| PDraw (room : string)
| PCount (countDown : Z) (msg : string)
| PClock (countDown : string) (msg : string)
| PGame (game : option Game)
| PError (error : string).

(** Effects in program order: socket emissions, writes to the game
    collection, and interval timers being installed and cleared. *)
Inductive Effect :=
| Emit (to : Target) (event : string) (body : Payload)
| Saved (gameId : string) (game : Game)
| IntervalSet (timer : nat)
| IntervalCleared (timer : nat).

(** How a handler body ended: normally, or in its [catch] block. *)
Inductive Outcome := Completed | Caught.

(** ** Tic-tac-toe *)

(** JavaScript truthiness of a user id: [undefined] and the empty string
    are falsy. *)
Definition truthy (id : option string) : bool :=
  match id with
  | Some s => negb (String.eqb s "")
  | None => false
  end.

(** Modelled from the spec: [GetGameDetail] is not part of the source file;
    the MatchState store returns the room recorded under a room id, if any. *)
Definition GetGameDetail (rooms : gmap string Room) (roomId : string) : option Room :=
  rooms !! roomId.

(** The slot the handler attributes a user id to: slot 1 when the id is
    slot 1's, slot 2 in every other case. *)
Definition is_user1 (room : Room) (uid : option string) : bool :=
  bool_decide (userId (user1 room) = uid).

Definition slot_of (room : Room) (uid : option string) : PlayerSlot :=
  if is_user1 room uid then user1 room else user2 room.

Definition push_move (s : PlayerSlot) (m : Z) : PlayerSlot :=
  mkSlot (userId s) (username s) (moves s ++ [m]).

Definition record_move (room : Room) (uid : option string) (m : Z) : Room :=
  if is_user1 room uid
  then mkRoom (push_move (user1 room) m) (user2 room)
  else mkRoom (user1 room) (push_move (user2 room) m).

(** Modelled from the spec: [CheckWin] and its table are not part of the
    source file.  The WinEvaluator enumerates the fixed set of 8 winning
    triples of the 3x3 board: 3 rows, 3 columns, 2 diagonals. *)
Definition winPatterns : list (list Z) :=
  [ [0; 1; 2]; [3; 4; 5]; [6; 7; 8];
    [0; 3; 6]; [1; 4; 7]; [2; 5; 8];
    [0; 4; 8]; [2; 4; 6] ].

(** [Array.prototype.includes] on an array of move indices. *)
Definition includes (l : list Z) (x : Z) : bool := existsb (Z.eqb x) l.

(** Modelled from the spec: the verdict of the WinEvaluator on a move
    sequence, a win when the moves contain every cell of some winning triple,
    reported with the first such triple. *)
Definition evaluate (ms : list Z) : WinResult :=
  match find (fun p => forallb (includes ms) p) winPatterns with
  | Some p => mkWin true (Some p)
  | None => mkWin false None
  end.

(** Modelled from the spec: [CheckWin] is not part of the source file.  It
    evaluates only the moves recorded for the player it is called for, in the
    room of the given id. *)
Definition CheckWin (rooms : gmap string Room) (roomId : string)
    (uid : option string) : WinResult :=
  match GetGameDetail rooms roomId with
  | Some room => evaluate (moves (slot_of room uid))
  | None => mkWin false None
  end.

(** The result of running one handler. *)
Record MoveRun := mkRun {
  rooms_after : gmap string Room;
  effects : list Effect;
  outcome : Outcome
}.

Definition total_moves (room : Room) : nat :=
  length (moves (user1 room)) + length (moves (user2 room)).

(** The win and draw part of the handler, entered after the move notice
    with the local variables [moveCount] and [current_username]. *)
Definition verdict (rooms : gmap string Room) (payload : MovePayload)
    (current_room : Room) (moveCount : nat) (current_username : string) : list Effect :=
  if (3 <=? moveCount)%nat then
    let r := CheckWin rooms (pl_roomId payload) (pl_userId payload) in
    if isWin r then
      [Emit (ToRoom (pl_roomId payload)) "win"
         (PWin (pl_userId payload) current_username (pattern r))]
    else if (9 <=? total_moves current_room)%nat then
      [Emit (ToRoom (pl_roomId payload)) "draw" (PDraw (pl_roomId payload))]
    else []
  else [].

(** [socket.on('move')].  A room id with no room makes the first property
    access throw; the [catch] logs it and nothing has been emitted.  The
    room object is shared with the store, so the push is visible to
    [CheckWin], which looks the room up again. *)
Definition move_handler (payload : MovePayload) (rooms : gmap string Room) : MoveRun :=
  match GetGameDetail rooms (pl_roomId payload) with
  | None => mkRun rooms [] Caught
  | Some current_room =>
      let leave :=
        if negb (truthy (userId (user1 current_room)))
           || negb (truthy (userId (user2 current_room)))
        then [Emit (ToRoom (pl_roomId payload)) "userLeave" PEmpty]
        else [] in
      let room' := record_move current_room (pl_userId payload) (pl_move payload) in
      let moveCount := length (moves (slot_of room' (pl_userId payload))) in
      let current_username := username (slot_of room' (pl_userId payload)) in
      let rooms' := <[pl_roomId payload := room']> rooms in
      let notice :=
        [Emit (ToRoom (pl_roomId payload)) "move"
           (PMove (pl_move payload) (pl_userId payload))] in
      mkRun rooms'
        (leave ++ notice ++ verdict rooms' payload room' moveCount current_username)
        Completed
  end.

(** A sequence of [move] actions, one handler run per action. *)
Fixpoint play (payloads : list MovePayload) (rooms : gmap string Room) : list MoveRun :=
  match payloads with
  | [] => []
  | p :: rest =>
      let r := move_handler p rooms in
      r :: play rest (rooms_after r)
  end.

Definition final_rooms (payloads : list MovePayload) (rooms : gmap string Room)
    : gmap string Room :=
  fold_left (fun rs p => rooms_after (move_handler p rs)) payloads rooms.

Definition trace (runs : list MoveRun) : list Effect := concat (map effects runs).

Definition is_win (e : Effect) : bool :=
  match e with Emit _ "win" (PWin _ _ _) => true | _ => false end.

Definition is_draw (e : Effect) : bool :=
  match e with Emit _ "draw" (PDraw _) => true | _ => false end.

(** An error payload, the shape the [joinRoom] handler answers failures with. *)
Definition is_rejection (e : Effect) : bool :=
  match e with Emit _ _ (PError _) => true | _ => false end.

(** ** Type race countdowns *)

(** The closure of an interval callback: the lobby countdown of the [timer]
    handler or the race countdown of [startGameClock], with the variables
    it captured. *)
Inductive Timer :=
| LobbyTick (gameId : string) (countDown : Z) (game : option Game)
| RaceTick (gameId : string) (time : Z) (game : Game).

(** The game collection, the table of interval handles (a handle is its
    index; a cleared handle holds [None]) and the effects so far. *)
Record World := mkWorld {
  db : gmap string Game;
  timers : list (option Timer);
  log : list Effect
}.

Definition emit (to : Target) (event : string) (body : Payload) (w : World) : World :=
  mkWorld (db w) (timers w) (log w ++ [Emit to event body]).

(** Modelled from the spec: the [TypeRaceGame] model is not part of the
    source file; [findById] is the persistence collaborator loading a game
    by its identifier, if there is one. *)
Definition findById (w : World) (gameId : string) : option Game := db w !! gameId.

(** Modelled from the spec: [players.id] of the [TypeRaceGame] model, the
    participant with the given player id, if any. *)
Definition players_id (pid : string) (g : Game) : option Player :=
  find (fun p => String.eqb (playerId p) pid) (players g).

(** Modelled from the spec: [save] of the [TypeRaceGame] model stores the
    snapshot under the game's identifier. *)
Definition save (gameId : string) (g : Game) (w : World) : World :=
  mkWorld (<[gameId := g]> (db w)) (timers w) (log w ++ [Saved gameId g]).

Definition setInterval (t : Timer) (w : World) : World :=
  mkWorld (db w) (timers w ++ [Some t]) (log w ++ [IntervalSet (length (timers w))]).

Definition clearInterval (id : nat) (w : World) : World :=
  mkWorld (db w) (<[id := None]> (timers w)) (log w ++ [IntervalCleared id]).

Definition set_closure (id : nat) (t : Timer) (w : World) : World :=
  mkWorld (db w) (<[id := Some t]> (timers w)) (log w).

Definition with_startTime (t : Z) (g : Game) : Game :=
  mkGame (players g) t (isOpen g) (isOver g).

Definition with_isOpen (b : bool) (g : Game) : Game :=
  mkGame (players g) (startTime g) b (isOver g).

Definition with_isOver (b : bool) (g : Game) : Game :=
  mkGame (players g) (startTime g) (isOpen g) b.

Section Clock.

(** [calculateTime] of [utils/game-clock] formats the remaining seconds; the
    source file only imports it. *)
Variable calculateTime : Z -> string.

(** [startGameClock]: [now] is the reading of [new Date().getTime()]. *)
Definition startGameClock (now : Z) (gameId : string) (w : World) : World :=
  match findById w gameId with
  | None => w
  | Some game =>
      let game := with_startTime now game in
      let w := save gameId game w in
      setInterval (RaceTick gameId 120 game) w
  end.

(** One firing of the interval callback behind handle [id]; a cleared or
    unknown handle does not fire.  Each callback runs as one step.  In the
    last lobby step [startGameClock] is called before [clearInterval], but
    being [async] it suspends at its first [await], so what it does comes
    after the interval is cleared. *)
Definition fire (now : Z) (id : nat) (w : World) : World :=
  match mjoin (timers w !! id) with
  | None => w
  | Some (LobbyTick gameId countDown game) =>
      if (0 <=? countDown)%Z then
        let w := emit (ToRoom gameId) "timer" (PCount countDown "Starting Game in...") w in
        let w := emit (ToRoom gameId) "update-game" (PGame game) w in
        set_closure id (LobbyTick gameId (countDown - 1) game) w
      else
        match game with
        | Some g =>
            let g := with_isOpen false g in
            let w := save gameId g w in
            let w := emit (ToRoom gameId) "update-game" (PGame (Some g)) w in
            let w := clearInterval id w in
            startGameClock now gameId w
        | None => w
        end
  | Some (RaceTick gameId time game) =>
      if (0 <=? time)%Z then
        let w := emit (ToRoom gameId) "timer" (PClock (calculateTime time) "Time Remaining") w in
        set_closure id (RaceTick gameId (time - 1) game) w
      else
        let game := with_isOver true game in
        let w := save gameId game w in
        let w := emit (ToRoom gameId) "update-game" (PGame (Some game)) w in
        clearInterval id w
  end.

(** [socket.on('timer')]. *)
Definition timer_handler (payload : TimerPayloadProps) (w : World) : World :=
  let gameId := tp_gameId payload in
  let countDown := 5 in
  let game := findById w gameId in
  let player := game ≫= players_id (tp_playerId payload) in
  let w :=
    match player with
    | None =>
        let w := emit (ToRoom gameId) "timer" (PCount 0 "There is no Player, Try Again") w in
        emit (ToRoom gameId) "update-game" (PGame game) w
    | Some _ => w
    end in
  match player with
  | Some p =>
      if isPartyLeader p then setInterval (LobbyTick gameId countDown game) w else w
  | None => w
  end.

(** [n] consecutive firings of one handle. *)
Fixpoint fire_n (n : nat) (now : Z) (id : nat) (w : World) : World :=
  match n with
  | O => w
  | S n => fire_n n now id (fire now id w)
  end.

(** The race countdowns currently installed for a game. *)
Definition is_race_for (gameId : string) (t : option Timer) : bool :=
  match t with
  | Some (RaceTick g _ _) => String.eqb g gameId
  | _ => false
  end.

Definition active_races (gameId : string) (w : World) : nat :=
  length (List.filter (is_race_for gameId) (timers w)).

End Clock.

(** ** Specification vocabulary *)

(** The lines of the 3x3 board, cells numbered row by row from 0. *)
Inductive Line : list Z -> Prop :=
| Row r : 0 <= r < 3 -> Line [3 * r; 3 * r + 1; 3 * r + 2]
| Column c : 0 <= c < 3 -> Line [c; c + 3; c + 6]
| Diagonal : Line [0; 4; 8]
| AntiDiagonal : Line [2; 4; 6].

(** A room right after its two players were bound. *)
Definition fresh_room (a b na nb : string) : Room :=
  mkRoom (mkSlot (Some a) na []) (mkSlot (Some b) nb []).

(** Nine [move] actions for room [rid], each from player [a] or player [b],
    on nine distinct cells of the board. *)
Definition nine_moves (rid a b : string) (ps : list MovePayload) : Prop :=
  length ps = 9%nat /\
  NoDup (map pl_move ps) /\
  Forall (fun p => pl_roomId p = rid /\
                   (pl_userId p = Some a \/ pl_userId p = Some b) /\
                   0 <= pl_move p <= 8) ps.

(** The room object after a sequence of pushes. *)
Definition room_after (room : Room) (ps : list MovePayload) : Room :=
  fold_left (fun r p => record_move r (pl_userId p) (pl_move p)) ps room.

Definition is_verdict (e : Effect) : bool := is_win e || is_draw e.

Definition has_win (tr : list Effect) : bool := existsb is_win tr.
Definition has_draw (tr : list Effect) : bool := existsb is_draw tr.

(** A handler run that refused the action: it ended in the [catch] block or
    answered with an error payload. *)
Definition refused (r : MoveRun) : Prop :=
  outcome r = Caught \/ exists e, In e (effects r) /\ is_rejection e = true.

(** The move sequences of both slots of room [rid] are the same in two stores. *)
Definition same_moves (rid : string) (before after : gmap string Room) : Prop :=
  forall r r', before !! rid = Some r -> after !! rid = Some r' ->
    moves (user1 r') = moves (user1 r) /\ moves (user2 r') = moves (user2 r).

(** [n; n-1; ...; 0] *)
Fixpoint countdown (n : nat) : list Z :=
  match n with
  | O => [0]
  | S k => Z.of_nat (S k) :: countdown k
  end.

Definition lobby_tick (gameId : string) (game : option Game) (c : Z) : list Effect :=
  [Emit (ToRoom gameId) "timer" (PCount c "Starting Game in...");
   Emit (ToRoom gameId) "update-game" (PGame game)].

(** A tick of either countdown. *)
Definition is_tick (e : Effect) : bool :=
  match e with
  | Emit _ "timer" (PCount _ "Starting Game in...") => true
  | Emit _ "timer" (PClock _ _) => true
  | _ => false
  end.

(** ** Sample inputs *)

Definition room_R1 : gmap string Room :=
  {[ "R1" := fresh_room "userA" "userB" "Ann" "Bob" ]}.

Definition byA (m : Z) : MovePayload := mkMove "R1" (Some "userA") m.
Definition byB (m : Z) : MovePayload := mkMove "R1" (Some "userB") m.
Definition byC (m : Z) : MovePayload := mkMove "R1" (Some "userC") m.

(** A wins on 0,1,2 and play goes on until B fills the last cell. *)
Definition win_then_draw : list MovePayload :=
  [byA 0; byB 3; byA 1; byB 4; byA 2; byB 7; byA 5; byA 6; byB 8].

(** Alternating play that fills the board without a line. *)
Definition drawn_game : list MovePayload :=
  [byA 0; byB 1; byA 2; byB 4; byA 3; byB 5; byA 7; byB 6; byA 8].

Definition top_row : list MovePayload := [byA 0; byA 1; byA 2].

(** B takes the diagonal while A holds a single cell. *)
Definition diagonal_B : list MovePayload := [byB 0; byA 1; byB 4; byB 8].

(** A store with a second room. *)
Definition rooms_R1_R2 : gmap string Room :=
  <["R2" := mkRoom (mkSlot (Some "userC") "Cat" [4]) (mkSlot (Some "userD") "Dan" [])]>
    room_R1.

(** A room whose second slot was never bound. *)
Definition room_half : gmap string Room :=
  {[ "R1" := mkRoom (mkSlot (Some "userA") "Ann" []) (mkSlot None "" []) ]}.

Definition race_game : Game :=
  mkGame [mkPlayer "lead" true; mkPlayer "guest" false] 0 true false.

Definition world_g : World := mkWorld {[ "g" := race_game ]} [] [].

(** Minutes and seconds, as a stand-in for [calculateTime]. *)
Definition mmss (t : Z) : string :=
  (pretty (t / 60)%Z ++ ":" ++ pretty (t mod 60)%Z)%string.

(** The tick notice of the race countdown. *)
Definition race_tick (calculateTime : Z -> string) (gameId : string) (t : Z) : Effect :=
  Emit (ToRoom gameId) "timer" (PClock (calculateTime t) "Time Remaining").

Definition lead_request : TimerPayloadProps := mkTimerPayload "lead" "g".
Definition guest_request : TimerPayloadProps := mkTimerPayload "guest" "g".

(** The leader asks for the countdown twice (handles 0 and 1) and both lobby
    countdowns run to their end. *)
Definition once_started : World :=
  fire_n mmss 7 1000 0 (timer_handler lead_request (timer_handler lead_request world_g)).

Definition twice_started : World := fire_n mmss 7 1000 1 once_started.

Ltac nine_moves_tac :=
  split; [reflexivity|]; split;
  [ apply (bool_decide_unpack _); vm_compute; reflexivity
  | repeat (apply Forall_cons; split;
            [simpl; split; [reflexivity | split; [auto | lia] ] |]);
    apply Forall_nil; exact I ].

(** ** Rooms side by side *)

Definition for_room (rid : string) (p : MovePayload) : bool :=
  String.eqb (pl_roomId p) rid.

(** What a sequence of [move] actions emits for room [rid]: the effects of
    the runs whose action is addressed to it, in order. *)
Definition effects_for (rid : string) (ps : list MovePayload)
    (rooms : gmap string Room) : list Effect :=
  concat (map (fun pr => if for_room rid (fst pr) then effects (snd pr) else [])
              (combine ps (play ps rooms))).

(** The interval callbacks fired in the order of a schedule of handles. *)
Fixpoint fire_all (calculateTime : Z -> string) (now : Z) (sched : list nat)
    (w : World) : World :=
  match sched with
  | [] => w
  | id :: rest => fire_all calculateTime now rest (fire calculateTime now id w)
  end.

(** ** Chat relay *)

(** The fields of [UserProps], [ChatProps] and [MessageProps] that the
    [newMessage] handler reads; each [_id] is named after its record. *)
Record UserProps := mkUser {
  user_id : string
}.

Record ChatProps := mkChat {
  chat_id : string;
  users : option (list UserProps)
}.

Record MessageProps := mkMessage {
  sender : UserProps;
  chat : option ChatProps
}.

(** What a chat handler does with its socket: [socket.in(room).emit], which
    addresses the room without the emitting socket, and [console.log]. *)
Inductive SocketEffect :=
| EmitIn (room : string) (event : string) (body : MessageProps)
| ConsoleLog (text : string).

(** [socket.on('newMessage')]: the callback of [forEach] returns early for
    the sender and emits for every other user. *)
Definition newMessage (newMessageReceived : MessageProps) : list SocketEffect :=
  match chat newMessageReceived ≫= users with
  | None => [ConsoleLog "chat.users not defined"]
  | Some us =>
      fold_left
        (fun sent user =>
           if String.eqb (user_id user) (user_id (sender newMessageReceived))
           then sent
           else sent ++ [EmitIn (user_id user) "messageReceived" newMessageReceived])
        us []
  end.

Definition targets (es : list SocketEffect) : list string :=
  flat_map (fun e => match e with EmitIn room _ _ => [room] | ConsoleLog _ => [] end) es.

Definition chat_of (ids : list string) (from : string) : MessageProps :=
  mkMessage (mkUser from) (Some (mkChat "c1" (Some (map mkUser ids)))).

(** ** The win evaluator *)

Lemma includes_In l x : includes l x = true <-> In x l.
Proof.
  unfold includes. rewrite existsb_exists. split.
  - intros [y [Hy Heq]]. apply Z.eqb_eq in Heq. now subst.
  - intros H. exists x. split; [assumption | apply Z.eqb_refl].
Qed.

Lemma covers_incl ms t : forallb (includes ms) t = true <-> incl t ms.
Proof.
  rewrite forallb_forall. unfold incl.
  split; intros H i Hi; apply includes_In; auto.
Qed.

Lemma winPatterns_lines t : In t winPatterns <-> Line t.
Proof.
  split.
  - intros H. simpl in H.
    destruct H as [<- | [<- | [<- | [<- | [<- | [<- | [<- | [<- | [] ] ] ] ] ] ] ] ].
    + exact (Row 0 ltac:(lia)).
    + exact (Row 1 ltac:(lia)).
    + exact (Row 2 ltac:(lia)).
    + exact (Column 0 ltac:(lia)).
    + exact (Column 1 ltac:(lia)).
    + exact (Column 2 ltac:(lia)).
    + exact Diagonal.
    + exact AntiDiagonal.
  - intros [r Hr|c Hc| |].
    + assert (r = 0 \/ r = 1 \/ r = 2) as [-> | [-> | ->] ] by lia; simpl; tauto.
    + assert (c = 0 \/ c = 1 \/ c = 2) as [-> | [-> | ->] ] by lia; simpl; tauto.
    + simpl; tauto.
    + simpl; tauto.
Qed.

Lemma evaluate_isWin ms :
  isWin (evaluate ms) = true <-> exists t, In t winPatterns /\ incl t ms.
Proof.
  unfold evaluate.
  destruct (find (fun p => forallb (includes ms) p) winPatterns) as [p|] eqn:Hf; simpl.
  - apply find_some in Hf as [Hin Hcov]. apply covers_incl in Hcov.
    split; [intros _; exists p; auto | auto].
  - split; [discriminate |].
    intros [t [Hin Hsub]]. apply covers_incl in Hsub.
    pose proof (find_none _ _ Hf t Hin) as Hn. simpl in Hn. congruence.
Qed.


Lemma CheckWin_found rooms rid uid room :
  rooms !! rid = Some room ->
  CheckWin rooms rid uid = evaluate (moves (slot_of room uid)).
Proof. intros H. unfold CheckWin, GetGameDetail. now rewrite H. Qed.

(** C1: for every player of a room, [CheckWin] answers [isWin = true]
    exactly when that player's own recorded moves contain the three cells of
    one of the 8 winning triples, which are the 3 rows, 3 columns and 2
    diagonals of the board, and [isWin = false] in every other case.  The
    player's recorded moves are the move sequence of the slot bound to the
    player's id: slot 1's for the player of slot 1, slot 2's for the player
    of slot 2. *)
Theorem CheckWin_iff_line (rooms : gmap string Room) rid uid room :
  rooms !! rid = Some room ->
  let won := isWin (CheckWin rooms rid uid) in
  (length winPatterns = 8%nat /\ NoDup winPatterns /\
   forall t, In t winPatterns <-> Line t) /\
  (userId (user1 room) = uid ->
     (won = true <-> exists t, Line t /\ incl t (moves (user1 room))) /\
     (won = false <-> ~ exists t, Line t /\ incl t (moves (user1 room)))) /\
  (userId (user2 room) = uid -> userId (user1 room) <> uid ->
     (won = true <-> exists t, Line t /\ incl t (moves (user2 room))) /\
     (won = false <-> ~ exists t, Line t /\ incl t (moves (user2 room)))).
Proof.
  intros Hroom won. subst won. rewrite (CheckWin_found _ _ _ _ Hroom).
  assert (Hiff : forall ms, isWin (evaluate ms) = true <-> exists t, Line t /\ incl t ms).
  { intros ms. rewrite evaluate_isWin. split; intros [t [H1 H2] ]; exists t;
      (split; [now apply winPatterns_lines | assumption]). }
  assert (Hboth : forall ms,
            (isWin (evaluate ms) = true <-> exists t, Line t /\ incl t ms) /\
            (isWin (evaluate ms) = false <-> ~ exists t, Line t /\ incl t ms)).
  { intros ms. split; [apply Hiff|]. rewrite <- Hiff. now destruct (isWin _). }
  split; [|split].
  - split; [reflexivity|]. split; [|apply winPatterns_lines].
    apply (bool_decide_unpack _). vm_compute. reflexivity.
  - intros H1. unfold slot_of, is_user1.
    rewrite ?bool_decide_eq_true_2 by assumption. apply Hboth.
  - intros _ H1. unfold slot_of, is_user1.
    rewrite ?bool_decide_eq_false_2 by assumption. apply Hboth.
Qed.

Lemma CheckWin_iff_line_witness :
  isWin (CheckWin (final_rooms diagonal_B room_R1) "R1" (Some "userB")) = true <->
  exists t, Line t /\ incl t [0; 4; 8].
Proof.
  pose proof (CheckWin_iff_line (final_rooms diagonal_B room_R1) "R1" (Some "userB")
                (mkRoom (mkSlot (Some "userA") "Ann" [1]) (mkSlot (Some "userB") "Bob" [0; 4; 8]))
                ltac:(vm_compute; reflexivity)) as H.
  cbv zeta in H. destruct H as (_ & _ & H2).
  exact (proj1 (H2 eq_refl ltac:(discriminate))).
Defined.

(** ** One [move] action *)

Lemma move_handler_missing payload (rooms : gmap string Room) :
  rooms !! pl_roomId payload = None ->
  move_handler payload rooms = mkRun rooms [] Caught.
Proof. intros H. unfold move_handler, GetGameDetail. now rewrite H. Qed.

Lemma move_handler_found payload (rooms : gmap string Room) room :
  rooms !! pl_roomId payload = Some room ->
  let room' := record_move room (pl_userId payload) (pl_move payload) in
  let rooms' := <[pl_roomId payload := room']> rooms in
  exists leave,
    (leave = [] \/ leave = [Emit (ToRoom (pl_roomId payload)) "userLeave" PEmpty]) /\
    move_handler payload rooms =
      mkRun rooms'
        (leave ++ Emit (ToRoom (pl_roomId payload)) "move"
                    (PMove (pl_move payload) (pl_userId payload))
               :: verdict rooms' payload room'
                    (length (moves (slot_of room' (pl_userId payload))))
                    (username (slot_of room' (pl_userId payload))))
        Completed.
Proof.
  intros H room' rooms'. unfold move_handler, GetGameDetail. rewrite H.
  destruct (negb (truthy (userId (user1 room))) || negb (truthy (userId (user2 room))));
    eexists; (split; [|reflexivity]); auto.
Qed.

Lemma verdict_cases rooms payload room n name :
  verdict rooms payload room n name = [] \/
  (exists e, verdict rooms payload room n name = [e] /\ is_win e = true /\ is_draw e = false /\
             (3 <= n)%nat /\
             isWin (CheckWin rooms (pl_roomId payload) (pl_userId payload)) = true) \/
  (exists e, verdict rooms payload room n name = [e] /\ is_draw e = true /\ is_win e = false /\
             (3 <= n)%nat /\ (9 <= total_moves room)%nat /\
             isWin (CheckWin rooms (pl_roomId payload) (pl_userId payload)) = false).
Proof.
  unfold verdict.
  destruct (Nat.leb_spec 3 n) as [H3|H3]; [|now left].
  destruct (isWin (CheckWin rooms (pl_roomId payload) (pl_userId payload))) eqn:Hw.
  - right; left. eexists. repeat split; auto.
  - destruct (Nat.leb_spec 9 (total_moves room)) as [H9|H9]; [|now left].
    right; right. eexists. repeat split; auto.
Qed.

Lemma verdict_only_verdicts rooms payload room n name e :
  In e (verdict rooms payload room n name) -> is_verdict e = true.
Proof.
  unfold is_verdict.
  destruct (verdict_cases rooms payload room n name)
    as [-> | [ [e' [-> [Hw _] ] ] | [e' [-> [Hd _] ] ] ] ]; simpl; [tauto| |].
  - intros [<- | [] ]. now rewrite Hw.
  - intros [<- | [] ]. rewrite Hd. apply orb_true_r.
Qed.

Lemma record_move_slot room uid m :
  slot_of (record_move room uid m) uid = push_move (slot_of room uid) m.
Proof.
  unfold slot_of, record_move, is_user1.
  destruct (bool_decide (userId (user1 room) = uid)) eqn:E; simpl; now rewrite E.
Qed.

(** C3: in the processing of one [move] action the room-wide move notice
    comes before the win and draw evaluation: whatever win or draw notice the
    action emits has the move notice of that very move earlier in the run. *)
Theorem move_notice_before_verdict payload (rooms : gmap string Room) pre e post :
  effects (move_handler payload rooms) = pre ++ e :: post ->
  is_verdict e = true ->
  In (Emit (ToRoom (pl_roomId payload)) "move"
        (PMove (pl_move payload) (pl_userId payload))) pre /\
  Forall (fun x => is_verdict x = false) pre.
Proof.
  intros Heff He.
  destruct (rooms !! pl_roomId payload) as [room|] eqn:Hroom.
  - destruct (move_handler_found payload rooms room Hroom) as [leave [Hleave Hrun] ].
    rewrite Hrun in Heff. simpl in Heff.
    set (notice := Emit (ToRoom (pl_roomId payload)) "move"
                     (PMove (pl_move payload) (pl_userId payload))) in *.
    set (v := verdict _ _ _ _ _) in *.
    assert (Hv : v = [] \/ exists x, v = [x]).
    { subst v. destruct (verdict_cases
        (<[pl_roomId payload:=record_move room (pl_userId payload) (pl_move payload)]> rooms)
        payload (record_move room (pl_userId payload) (pl_move payload))
        (length (moves (slot_of (record_move room (pl_userId payload) (pl_move payload))
                          (pl_userId payload))))
        (username (slot_of (record_move room (pl_userId payload) (pl_move payload))
                     (pl_userId payload))))
        as [-> | [ [x [-> _] ] | [x [-> _] ] ] ]; eauto. }
    assert (Hn : is_verdict notice = false) by reflexivity.
    destruct Hleave as [-> | ->]; simpl in Heff.
    + destruct pre as [|a pre]; simpl in Heff.
      * injection Heff as <- _. congruence.
      * injection Heff as <- Hrest.
        destruct Hv as [Hv | [x Hv] ]; rewrite Hv in Hrest.
        -- destruct pre; discriminate.
        -- destruct pre as [|b pre]; [|destruct pre; discriminate].
           split; [now left | repeat constructor; assumption].
    + destruct pre as [|a pre]; simpl in Heff.
      * injection Heff as <- _. discriminate.
      * injection Heff as <- Hrest.
        destruct pre as [|b pre]; simpl in Hrest.
        -- injection Hrest as <- _. congruence.
        -- injection Hrest as <- Hrest.
           destruct Hv as [Hv | [x Hv] ]; rewrite Hv in Hrest.
           ++ destruct pre; discriminate.
           ++ destruct pre as [|c pre]; [|destruct pre; discriminate].
              split; [right; now left | repeat constructor; assumption].
  - rewrite (move_handler_missing _ _ Hroom) in Heff. simpl in Heff.
    destruct pre; discriminate.
Qed.

Lemma move_notice_before_verdict_witness :
  In (Emit (ToRoom "R1") "move" (PMove 2 (Some "userA")))
     [Emit (ToRoom "R1") "move" (PMove 2 (Some "userA"))] /\
  Forall (fun x => is_verdict x = false)
     [Emit (ToRoom "R1") "move" (PMove 2 (Some "userA"))].
Proof.
  apply (move_notice_before_verdict (byA 2) (final_rooms [byA 0; byA 1] room_R1)
           [Emit (ToRoom "R1") "move" (PMove 2 (Some "userA"))]
           (Emit (ToRoom "R1") "win" (PWin (Some "userA") "Ann" (Some [0; 1; 2])))
           []).
  - vm_compute. reflexivity.
  - reflexivity.
Defined.

Lemma verdict_no_rejection rooms payload room n name e :
  In e (verdict rooms payload room n name) -> is_rejection e = false.
Proof.
  unfold verdict.
  destruct (3 <=? n)%nat; [|intros [] ].
  destruct (isWin _).
  - intros [<- | [] ]. reflexivity.
  - destruct (9 <=? total_moves room)%nat; [|intros [] ].
    intros [<- | [] ]. reflexivity.
Qed.

Lemma move_handler_never_refuses payload (rooms : gmap string Room) room :
  rooms !! pl_roomId payload = Some room ->
  ~ refused (move_handler payload rooms).
Proof.
  intros Hroom.
  destruct (move_handler_found payload rooms room Hroom) as [leave [Hleave ->] ].
  intros [Hc | [e [Hin Hrej] ] ]; simpl in *; [discriminate|].
  apply in_app_or in Hin. destruct Hin as [Hin | [<- | Hin] ].
  - destruct Hleave as [-> | ->]; simpl in Hin; [tauto|].
    destruct Hin as [<- | [] ]. discriminate.
  - discriminate.
  - apply verdict_no_rejection in Hin. congruence.
Qed.

Lemma move_handler_notice payload (rooms : gmap string Room) room :
  rooms !! pl_roomId payload = Some room ->
  In (Emit (ToRoom (pl_roomId payload)) "move"
        (PMove (pl_move payload) (pl_userId payload)))
     (effects (move_handler payload rooms)).
Proof.
  intros Hroom.
  destruct (move_handler_found payload rooms room Hroom) as [leave [_ ->] ].
  simpl. apply in_or_app. right. now left.
Qed.

Lemma move_handler_rooms_after payload (rooms : gmap string Room) room :
  rooms !! pl_roomId payload = Some room ->
  rooms_after (move_handler payload rooms) =
  <[pl_roomId payload := record_move room (pl_userId payload) (pl_move payload)]> rooms.
Proof.
  intros Hroom.
  destruct (move_handler_found payload rooms room Hroom) as [leave [_ ->] ].
  reflexivity.
Qed.

(** C10: when a slot of the addressed room has no bound user id, the handler
    broadcasts [userLeave] to the room and carries on: the move is appended
    to a slot's move sequence and the move notice is broadcast next. *)
Theorem userLeave_does_not_stop payload (rooms : gmap string Room) room :
  rooms !! pl_roomId payload = Some room ->
  truthy (userId (user1 room)) = false \/ truthy (userId (user2 room)) = false ->
  let run := move_handler payload rooms in
  let room' := record_move room (pl_userId payload) (pl_move payload) in
  outcome run = Completed /\
  (exists rest,
     effects run =
       Emit (ToRoom (pl_roomId payload)) "userLeave" PEmpty
       :: Emit (ToRoom (pl_roomId payload)) "move"
            (PMove (pl_move payload) (pl_userId payload))
       :: rest) /\
  rooms_after run !! pl_roomId payload = Some room' /\
  ((moves (user1 room') = moves (user1 room) ++ [pl_move payload] /\
    moves (user2 room') = moves (user2 room)) \/
   (moves (user2 room') = moves (user2 room) ++ [pl_move payload] /\
    moves (user1 room') = moves (user1 room))).
Proof.
  intros Hroom Hfalsy run room'. subst run.
  unfold move_handler, GetGameDetail. rewrite Hroom.
  replace (negb (truthy (userId (user1 room))) || negb (truthy (userId (user2 room))))
    with true by (destruct Hfalsy as [-> | ->]; simpl; now rewrite ?orb_true_r).
  simpl. split; [reflexivity|]. split; [eexists; reflexivity|].
  split; [apply lookup_insert_eq|].
  subst room'. unfold record_move.
  destruct (is_user1 room (pl_userId payload)); simpl; auto.
Qed.

Lemma userLeave_does_not_stop_witness :
  exists rest,
    effects (move_handler (byB 4) room_half) =
      Emit (ToRoom "R1") "userLeave" PEmpty
      :: Emit (ToRoom "R1") "move" (PMove 4 (Some "userB")) :: rest.
Proof.
  apply (userLeave_does_not_stop (byB 4) room_half
           (mkRoom (mkSlot (Some "userA") "Ann" []) (mkSlot None "" []))).
  - vm_compute. reflexivity.
  - right. reflexivity.
Defined.

(** C6, as stated, fails: after the top row gave player A the win, a further
    move of A is neither refused nor left out of A's move sequence. *)
Lemma move_after_win_counterexample :
  existsb is_verdict (trace (play top_row room_R1)) = true /\
  ~ (refused (move_handler (byA 3) (final_rooms top_row room_R1)) /\
     same_moves "R1" (final_rooms top_row room_R1)
       (rooms_after (move_handler (byA 3) (final_rooms top_row room_R1)))).
Proof.
  split; [vm_compute; reflexivity|].
  intros [_ Hsame].
  specialize (Hsame
    (mkRoom (mkSlot (Some "userA") "Ann" [0; 1; 2]) (mkSlot (Some "userB") "Bob" []))
    (mkRoom (mkSlot (Some "userA") "Ann" [0; 1; 2; 3]) (mkSlot (Some "userB") "Bob" []))
    ltac:(vm_compute; reflexivity) ltac:(vm_compute; reflexivity)).
  destruct Hsame as [H _]. discriminate H.
Qed.

(** C6, amended: the handler keeps no finished state.  A move action for a
    room whose earlier moves already produced a win or draw notice is handled
    like any other: it is not refused, the move is appended to the mover's
    move sequence and the move notice is broadcast. *)
Theorem move_after_end_is_recorded (rooms0 : gmap string Room) ps payload room :
  existsb is_verdict (trace (play ps rooms0)) = true ->
  final_rooms ps rooms0 !! pl_roomId payload = Some room ->
  let run := move_handler payload (final_rooms ps rooms0) in
  let room' := record_move room (pl_userId payload) (pl_move payload) in
  ~ refused run /\
  outcome run = Completed /\
  rooms_after run !! pl_roomId payload = Some room' /\
  moves (slot_of room' (pl_userId payload)) =
    moves (slot_of room (pl_userId payload)) ++ [pl_move payload] /\
  In (Emit (ToRoom (pl_roomId payload)) "move"
        (PMove (pl_move payload) (pl_userId payload))) (effects run).
Proof.
  intros _ Hroom run room'. subst run room'.
  split; [now apply (move_handler_never_refuses _ _ room)|].
  split.
  { destruct (move_handler_found payload _ room Hroom) as [leave [_ ->] ]. reflexivity. }
  split.
  { rewrite (move_handler_rooms_after _ _ _ Hroom). apply lookup_insert_eq. }
  split; [now rewrite record_move_slot | now apply (move_handler_notice _ _ room)].
Qed.

Lemma move_after_end_is_recorded_witness :
  moves (slot_of (record_move
           (mkRoom (mkSlot (Some "userA") "Ann" [0; 1; 2]) (mkSlot (Some "userB") "Bob" []))
           (Some "userA") 3) (Some "userA")) = [0; 1; 2] ++ [3].
Proof.
  apply (move_after_end_is_recorded room_R1 top_row (byA 3)
           (mkRoom (mkSlot (Some "userA") "Ann" [0; 1; 2]) (mkSlot (Some "userB") "Bob" []))).
  - vm_compute. reflexivity.
  - vm_compute. reflexivity.
Defined.

(** C7, as stated, fails: a move of a user who holds no slot of the room is
    not refused, and it lands in the second slot's move sequence. *)
Lemma stranger_move_counterexample :
  userId (user1 (fresh_room "userA" "userB" "Ann" "Bob")) <> pl_userId (byC 4) /\
  userId (user2 (fresh_room "userA" "userB" "Ann" "Bob")) <> pl_userId (byC 4) /\
  ~ (refused (move_handler (byC 4) room_R1) /\
     same_moves "R1" room_R1 (rooms_after (move_handler (byC 4) room_R1))).
Proof.
  split; [discriminate|]. split; [discriminate|].
  intros [_ Hsame].
  specialize (Hsame
    (fresh_room "userA" "userB" "Ann" "Bob")
    (mkRoom (mkSlot (Some "userA") "Ann" []) (mkSlot (Some "userB") "Bob" [4]))
    ltac:(vm_compute; reflexivity) ltac:(vm_compute; reflexivity)).
  destruct Hsame as [_ H]. discriminate H.
Qed.

(** C7, amended: the handler has no refusal for a player outside the room.
    A move action whose user id is neither slot's completes normally, leaves
    the first slot's move sequence as it was, is appended to the second
    slot's move sequence, and is broadcast to the room. *)
Theorem stranger_move_goes_to_user2 payload (rooms : gmap string Room) room :
  rooms !! pl_roomId payload = Some room ->
  userId (user1 room) <> pl_userId payload ->
  userId (user2 room) <> pl_userId payload ->
  let run := move_handler payload rooms in
  ~ refused run /\
  outcome run = Completed /\
  (exists room',
     rooms_after run !! pl_roomId payload = Some room' /\
     moves (user1 room') = moves (user1 room) /\
     moves (user2 room') = moves (user2 room) ++ [pl_move payload]) /\
  In (Emit (ToRoom (pl_roomId payload)) "move"
        (PMove (pl_move payload) (pl_userId payload))) (effects run).
Proof.
  intros Hroom H1 _ run. subst run.
  split; [now apply (move_handler_never_refuses _ _ room)|].
  split.
  { destruct (move_handler_found payload _ room Hroom) as [leave [_ ->] ]. reflexivity. }
  split; [|now apply (move_handler_notice _ _ room)].
  exists (record_move room (pl_userId payload) (pl_move payload)).
  rewrite (move_handler_rooms_after _ _ _ Hroom).
  split; [apply lookup_insert_eq|].
  unfold record_move, is_user1. rewrite bool_decide_eq_false_2 by assumption.
  simpl. auto.
Qed.

Lemma stranger_move_goes_to_user2_witness :
  In (Emit (ToRoom "R1") "move" (PMove 4 (Some "userC")))
     (effects (move_handler (byC 4) room_R1)).
Proof.
  apply (stranger_move_goes_to_user2 (byC 4) room_R1 (fresh_room "userA" "userB" "Ann" "Bob")).
  - vm_compute. reflexivity.
  - discriminate.
  - discriminate.
Defined.

(** ** Sequences of [move] actions *)

Lemma final_rooms_app l1 l2 (rooms : gmap string Room) :
  final_rooms (l1 ++ l2) rooms = final_rooms l2 (final_rooms l1 rooms).
Proof. unfold final_rooms. apply fold_left_app. Qed.

Lemma play_app l1 l2 (rooms : gmap string Room) :
  play (l1 ++ l2) rooms = play l1 rooms ++ play l2 (final_rooms l1 rooms).
Proof.
  revert rooms. induction l1 as [|p l1 IH]; intros rooms; simpl; [reflexivity|].
  now rewrite IH.
Qed.

Lemma room_after_snoc room ps p :
  room_after room (ps ++ [p]) = record_move (room_after room ps) (pl_userId p) (pl_move p).
Proof. unfold room_after. now rewrite fold_left_app. Qed.

Lemma final_rooms_lookup rid ps (rooms : gmap string Room) room :
  Forall (fun p => pl_roomId p = rid) ps ->
  rooms !! rid = Some room ->
  final_rooms ps rooms !! rid = Some (room_after room ps).
Proof.
  intros Hall. revert rooms room.
  induction Hall as [|p ps Hp Hall IH]; intros rooms room Hroom; simpl; [assumption|].
  apply IH. subst rid. rewrite (move_handler_rooms_after _ _ _ Hroom).
  apply lookup_insert_eq.
Qed.

Lemma record_move_is_user1 room uid m uid' :
  is_user1 (record_move room uid m) uid' = is_user1 room uid'.
Proof.
  unfold record_move, is_user1.
  now destruct (bool_decide (userId (user1 room) = uid)).
Qed.

Lemma record_move_moves room uid m :
  moves (user1 (record_move room uid m)) =
    moves (user1 room) ++ (if is_user1 room uid then [m] else []) /\
  moves (user2 (record_move room uid m)) =
    moves (user2 room) ++ (if is_user1 room uid then [] else [m]).
Proof.
  unfold record_move. destruct (is_user1 room uid); simpl; now rewrite app_nil_r.
Qed.

Lemma room_after_is_user1 room ps uid :
  is_user1 (room_after room ps) uid = is_user1 room uid.
Proof.
  revert room. induction ps as [|p ps IH]; intros room; simpl; [reflexivity|].
  unfold room_after in *. simpl. rewrite IH. apply record_move_is_user1.
Qed.

Lemma room_after_moves room ps :
  moves (user1 (room_after room ps)) =
    moves (user1 room) ++
    map pl_move (List.filter (fun p => is_user1 room (pl_userId p)) ps) /\
  moves (user2 (room_after room ps)) =
    moves (user2 room) ++
    map pl_move (List.filter (fun p => negb (is_user1 room (pl_userId p))) ps).
Proof.
  induction ps as [|p ps IH] using rev_ind; simpl.
  - now rewrite !app_nil_r.
  - rewrite room_after_snoc.
    destruct (record_move_moves (room_after room ps) (pl_userId p) (pl_move p)) as [H1 H2].
    rewrite H1, H2. destruct IH as [-> ->].
    rewrite room_after_is_user1, !List.filter_app, !map_app. simpl.
    destruct (is_user1 room (pl_userId p)); simpl; now rewrite <- !app_assoc.
Qed.

Lemma slot_moves_after room ps uid :
  moves (slot_of (room_after room ps) uid) =
    moves (slot_of room uid) ++
    map pl_move
      (List.filter (fun p => Bool.eqb (is_user1 room (pl_userId p)) (is_user1 room uid)) ps).
Proof.
  unfold slot_of. rewrite room_after_is_user1.
  destruct (room_after_moves room ps) as [H1 H2].
  destruct (is_user1 room uid); [rewrite H1 | rewrite H2];
    f_equal; f_equal;
    (reflexivity ||
     (apply List.filter_ext; intros p; now destruct (is_user1 room (pl_userId p)))).
Qed.

Lemma total_moves_after room ps :
  total_moves (room_after room ps) = (total_moves room + length ps)%nat.
Proof.
  induction ps as [|p ps IH] using rev_ind; simpl; [lia|].
  rewrite room_after_snoc, length_app. simpl.
  unfold total_moves in *.
  destruct (record_move_moves (room_after room ps) (pl_userId p) (pl_move p)) as [-> ->].
  rewrite !length_app. destruct (is_user1 _ _); simpl; lia.
Qed.

Lemma filter_split_length {A} (f : A -> bool) (l : list A) :
  (length (List.filter f l) + length (List.filter (fun x => negb (f x)) l))%nat = length l.
Proof. induction l as [|x l IH]; simpl; [reflexivity|]. destruct (f x); simpl; lia. Qed.

Lemma last_such {A} (f : A -> bool) (l : list A) :
  List.filter f l <> [] ->
  exists l1 q l2, l = l1 ++ q :: l2 /\ f q = true /\ List.filter f l2 = [].
Proof.
  induction l as [|x l IH] using rev_ind; [intros H; now elim H|].
  rewrite List.filter_app. simpl. destruct (f x) eqn:Hx.
  - intros _. exists l, x, []. auto.
  - rewrite app_nil_r. intros H. destruct (IH H) as (l1 & q & l2 & -> & Hq & Hl2).
    exists l1, q, (l2 ++ [x]). rewrite <- app_assoc. simpl.
    repeat split; [assumption|]. rewrite List.filter_app, Hl2. simpl. now rewrite Hx.
Qed.

Lemma NoDup_map_filter {A B} (g : A -> B) (f : A -> bool) (l : list A) :
  NoDup (map g l) -> NoDup (map g (List.filter f l)).
Proof.
  induction l as [|x l IH]; simpl; [auto|].
  rewrite !NoDup_cons. intros [Hx Hl]. destruct (f x); simpl; [|auto].
  rewrite NoDup_cons. split; [|auto].
  intros Hin. apply Hx.
  apply list_elem_of_In in Hin. apply list_elem_of_In.
  apply in_map_iff in Hin as (y & <- & Hy). apply List.filter_In in Hy as [Hy _].
  now apply in_map.
Qed.

(** Any seven distinct cells of the board contain a full row. *)
Lemma seven_cells_win ms :
  NoDup ms ->
  (forall x, In x ms -> 0 <= x <= 8) ->
  (7 <= length ms)%nat ->
  isWin (evaluate ms) = true.
Proof.
  intros Hnd Hrange Hlen.
  assert (Hle : (length ms <=
                 length (List.filter (includes ms) [0; 1; 2; 3; 4; 5; 6; 7; 8]%Z))%nat).
  { apply List.NoDup_incl_length; [now apply NoDup_ListNoDup|].
    intros x Hx. apply List.filter_In. split; [|now apply includes_In].
    specialize (Hrange x Hx).
    assert (x = 0 \/ x = 1 \/ x = 2 \/ x = 3 \/ x = 4 \/ x = 5 \/ x = 6 \/ x = 7 \/ x = 8)
      as Hcases by lia.
    simpl. intuition auto. }
  unfold evaluate, winPatterns. simpl in *.
  destruct (includes ms 0), (includes ms 1), (includes ms 2),
           (includes ms 3), (includes ms 4), (includes ms 5),
           (includes ms 6), (includes ms 7), (includes ms 8);
    simpl in *; first [reflexivity | lia].
Qed.

Lemma run_in_trace l1 q l2 (rooms : gmap string Room) e :
  In e (effects (move_handler q (final_rooms l1 rooms))) ->
  In e (trace (play (l1 ++ q :: l2) rooms)).
Proof.
  intros H. unfold trace. rewrite play_app. simpl.
  rewrite map_app, concat_app. simpl.
  apply in_or_app. right. apply in_or_app. now left.
Qed.

(** The verdict of the action [q] that follows the actions [l1] in room [rid]. *)
Lemma effects_at rid room0 l1 q (rooms : gmap string Room) :
  rooms !! rid = Some room0 ->
  Forall (fun p => pl_roomId p = rid) (l1 ++ [q]) ->
  let room' := room_after room0 (l1 ++ [q]) in
  let rooms' := <[rid := room']> (final_rooms l1 rooms) in
  rooms_after (move_handler q (final_rooms l1 rooms)) = rooms' /\
  CheckWin rooms' rid (pl_userId q) = evaluate (moves (slot_of room' (pl_userId q))) /\
  exists leave,
    (forall x, In x leave -> is_verdict x = false) /\
    effects (move_handler q (final_rooms l1 rooms)) =
      leave ++ verdict rooms' q room'
                 (length (moves (slot_of room' (pl_userId q))))
                 (username (slot_of room' (pl_userId q))).
Proof.
  intros Hroom Hall room' rooms'.
  apply Forall_app in Hall as [Hl1 Hq]. apply Forall_inv in Hq.
  pose proof (final_rooms_lookup rid l1 rooms room0 Hl1 Hroom) as Hat.
  rewrite <- Hq in Hat.
  destruct (move_handler_found q _ _ Hat) as [leave [Hleave Hrun] ].
  subst room' rooms'. rewrite room_after_snoc. rewrite <- Hq.
  rewrite Hrun. simpl. split; [reflexivity|]. split.
  - apply CheckWin_found. apply lookup_insert_eq.
  - exists (leave ++ [Emit (ToRoom (pl_roomId q)) "move" (PMove (pl_move q) (pl_userId q))]).
    split.
    + intros x Hx. apply in_app_or in Hx as [Hx | [<- | [] ] ]; [|reflexivity].
      destruct Hleave as [-> | ->]; simpl in Hx; [tauto|].
      destruct Hx as [<- | [] ]. reflexivity.
    + now rewrite <- app_assoc.
Qed.

Lemma move_handler_one_verdict payload (rooms : gmap string Room) :
  (length (List.filter is_verdict (effects (move_handler payload rooms))) <= 1)%nat.
Proof.
  destruct (rooms !! pl_roomId payload) as [room|] eqn:Hroom.
  - destruct (move_handler_found payload rooms room Hroom) as [leave [Hleave ->] ].
    simpl. rewrite List.filter_app. simpl.
    assert (Hl : List.filter is_verdict leave = []) by (destruct Hleave as [-> | ->]; reflexivity).
    rewrite Hl. simpl.
    match goal with |- context [verdict ?a ?b ?c ?d ?e] =>
      destruct (verdict_cases a b c d e) as [-> | [ [x [-> _] ] | [x [-> _] ] ] ] end;
      simpl; try lia; destruct (is_verdict x); simpl; lia.
  - rewrite (move_handler_missing _ _ Hroom). simpl. lia.
Qed.

Lemma In_play r ps (rooms : gmap string Room) :
  In r (play ps rooms) -> exists p rs, r = move_handler p rs.
Proof.
  revert rooms. induction ps as [|p ps IH]; intros rooms; simpl; [tauto|].
  intros [<- | H]; eauto.
Qed.

Lemma fresh_slot_moves a b na nb uid : moves (slot_of (fresh_room a b na nb) uid) = [].
Proof. unfold slot_of. now destruct (is_user1 _ _). Qed.

Lemma nine_moves_rooms rid a b ps :
  nine_moves rid a b ps -> Forall (fun p => pl_roomId p = rid) ps.
Proof.
  intros (_ & _ & H). eapply Forall_impl; [exact H|]. simpl. tauto.
Qed.

Lemma nine_moves_range rid a b ps f x :
  nine_moves rid a b ps -> In x (map pl_move (List.filter f ps)) -> 0 <= x <= 8.
Proof.
  intros (_ & _ & H) Hin.
  apply in_map_iff in Hin as (p & <- & Hp). apply List.filter_In in Hp as [Hp _].
  rewrite Forall_forall in H. apply list_elem_of_In in Hp. now apply H in Hp.
Qed.

(** The slot of [q] wins at [q] when it ends up with seven or more cells and
    none of them is played after [q]. *)
Lemma crowded_slot_wins (rooms : gmap string Room) rid a b na nb l1 q l2 :
  rooms !! rid = Some (fresh_room a b na nb) ->
  nine_moves rid a b (l1 ++ q :: l2) ->
  let same p := Bool.eqb (is_user1 (fresh_room a b na nb) (pl_userId p))
                         (is_user1 (fresh_room a b na nb) (pl_userId q)) in
  List.filter same l2 = [] ->
  (7 <= length (List.filter same (l1 ++ q :: l2)))%nat ->
  exists e, In e (trace (play (l1 ++ q :: l2) rooms)) /\ is_win e = true.
Proof.
  intros Hroom Hnine same Hl2 Hlen.
  pose proof (nine_moves_rooms _ _ _ _ Hnine) as Hall.
  assert (Hall1 : Forall (fun p => pl_roomId p = rid) (l1 ++ [q])).
  { apply Forall_app in Hall as [H1 H2]. apply Forall_app. split; [assumption|].
    apply Forall_inv in H2. now constructor. }
  destruct (effects_at rid _ l1 q rooms Hroom Hall1) as (_ & Hcheck & leave & _ & Heff).
  assert (Hsplit : List.filter same (l1 ++ q :: l2) = List.filter same (l1 ++ [q])).
  { change (q :: l2) with ([q] ++ l2). rewrite app_assoc, List.filter_app, Hl2.
    apply app_nil_r. }
  assert (Hmoves : moves (slot_of (room_after (fresh_room a b na nb) (l1 ++ [q])) (pl_userId q))
                   = map pl_move (List.filter same (l1 ++ q :: l2))).
  { rewrite slot_moves_after, fresh_slot_moves, Hsplit. reflexivity. }
  assert (Hwin : isWin (evaluate (map pl_move (List.filter same (l1 ++ q :: l2)))) = true).
  { apply seven_cells_win.
    - apply NoDup_map_filter. apply Hnine.
    - intros x Hx. eapply nine_moves_range; eauto.
    - now rewrite length_map. }
  rewrite Hmoves in Hcheck, Heff.
  assert (Hq : pl_roomId q = rid).
  { apply Forall_app in Hall1 as [_ H]. now apply Forall_inv in H. }
  unfold verdict in Heff. rewrite Hq, Hcheck, Hwin, length_map in Heff.
  replace (3 <=? length (List.filter same (l1 ++ q :: l2)))%nat with true in Heff
    by (symmetry; apply Nat.leb_le; lia).
  eexists. split.
  - apply run_in_trace. rewrite Heff. apply in_or_app. right. now left.
  - reflexivity.
Qed.

(** C2, as stated, fails: nine distinct cells split between the two bound
    players can produce both a win notice and a draw notice. *)
Lemma win_then_draw_counterexample :
  "userA" <> "userB" /\
  room_R1 !! "R1" = Some (fresh_room "userA" "userB" "Ann" "Bob") /\
  nine_moves "R1" "userA" "userB" win_then_draw /\
  has_win (trace (play win_then_draw room_R1)) = true /\
  has_draw (trace (play win_then_draw room_R1)) = true.
Proof.
  split; [discriminate|]. split; [vm_compute; reflexivity|].
  split; [|split; vm_compute; reflexivity].
  unfold win_then_draw, byA, byB. nine_moves_tac.
Qed.

(** C2, amended: for nine [move] actions on nine distinct cells, split
    between the two bound players of a room, at least one win or draw notice
    is emitted; a single action never emits both; and a draw notice is
    emitted only by the ninth action, when the total move count has reached 9
    and the win check on that move found no win.  (Moves are still processed
    after a win, so a win notice may be followed by further notices.) *)
Theorem nine_moves_verdict (rooms : gmap string Room) rid a b na nb ps :
  a <> b ->
  rooms !! rid = Some (fresh_room a b na nb) ->
  nine_moves rid a b ps ->
  (exists e, In e (trace (play ps rooms)) /\ is_verdict e = true) /\
  (forall r, In r (play ps rooms) ->
     (length (List.filter is_verdict (effects r)) <= 1)%nat) /\
  (forall l1 q l2 e, ps = l1 ++ q :: l2 ->
     let r := move_handler q (final_rooms l1 rooms) in
     In e (effects r) -> is_draw e = true ->
     l2 = [] /\
     rooms_after r !! rid = Some (room_after (fresh_room a b na nb) ps) /\
     total_moves (room_after (fresh_room a b na nb) ps) = 9%nat /\
     isWin (CheckWin (rooms_after r) rid (pl_userId q)) = false).
Proof.
  intros _ Hroom Hnine.
  pose proof (nine_moves_rooms _ _ _ _ Hnine) as Hall.
  pose proof Hnine as (Hlen & Hnd & _).
  set (room0 := fresh_room a b na nb) in *.
  split; [|split].
  - (* some verdict is emitted *)
    destruct (exists_last (l := ps)) as (l & p9 & Hps);
      [intros ->; discriminate|].
    set (same p := Bool.eqb (is_user1 room0 (pl_userId p)) (is_user1 room0 (pl_userId p9))).
    destruct (le_lt_dec 3 (length (List.filter same ps))) as [Hmany | Hfew].
    + (* the last mover has at least three moves *)
      assert (Hall1 : Forall (fun p => pl_roomId p = rid) (l ++ [p9])) by now rewrite <- Hps.
      destruct (effects_at rid _ l p9 rooms Hroom Hall1) as (_ & Hcheck & leave & _ & Heff).
      assert (Hq : pl_roomId p9 = rid).
      { apply Forall_app in Hall1 as [_ H]. now apply Forall_inv in H. }
      assert (Hn : length (moves (slot_of (room_after room0 (l ++ [p9])) (pl_userId p9)))
                   = length (List.filter same ps)).
      { rewrite slot_moves_after. unfold room0 at 1. rewrite fresh_slot_moves.
        simpl. rewrite length_map, Hps. reflexivity. }
      unfold verdict in Heff. rewrite Hn in Heff.
      replace (3 <=? length (List.filter same ps))%nat with true in Heff
        by (symmetry; apply Nat.leb_le; lia).
      rewrite total_moves_after in Heff. rewrite <- Hps, Hlen in Heff. simpl in Heff.
      rewrite Hps.
      destruct (isWin _) in Heff.
      * eexists. split.
        -- apply (run_in_trace l p9 []).
           rewrite Heff. apply in_or_app. right. now left.
        -- reflexivity.
      * eexists. split.
        -- apply (run_in_trace l p9 []).
           rewrite Heff. apply in_or_app. right. now left.
        -- reflexivity.
    + (* the other slot holds at least seven cells *)
      set (other p := negb (same p)).
      pose proof (filter_split_length same ps) as Hsum. fold other in Hsum.
      assert (Hne : List.filter other ps <> []).
      { intros E. rewrite E in Hsum. simpl in Hsum. lia. }
      destruct (last_such other ps Hne) as (l1 & q & l2 & Hdec & Hq & Hl2).
      assert (Hext : forall p,
                Bool.eqb (is_user1 room0 (pl_userId p)) (is_user1 room0 (pl_userId q))
                = other p).
      { intros p. unfold other, same in *.
        destruct (is_user1 room0 (pl_userId p)), (is_user1 room0 (pl_userId q)),
                 (is_user1 room0 (pl_userId p9)); simpl in *; congruence. }
      rewrite Hdec in *.
      destruct (crowded_slot_wins rooms rid a b na nb l1 q l2 Hroom Hnine) as (e & Hin & He).
      * fold room0. rewrite (List.filter_ext _ _ Hext). exact Hl2.
      * fold room0. rewrite (List.filter_ext _ _ Hext). lia.
      * exists e. split; [assumption|]. unfold is_verdict. now rewrite He.
  - (* one verdict per action at most *)
    intros r Hr. apply In_play in Hr as (p & rs & ->). apply move_handler_one_verdict.
  - (* a draw comes from the ninth action only *)
    intros l1 q l2 e Hps r Hin Hdraw. subst r.
    assert (Hall1 : Forall (fun p => pl_roomId p = rid) (l1 ++ [q])).
    { rewrite Hps in Hall. apply Forall_app in Hall as [H1 H2]. apply Forall_app.
      split; [assumption|]. apply Forall_inv in H2. now constructor. }
    destruct (effects_at rid _ l1 q rooms Hroom Hall1) as (Hafter & Hcheck & leave & Hleave & Heff).
    assert (Hq : pl_roomId q = rid).
    { apply Forall_app in Hall1 as [_ H]. now apply Forall_inv in H. }
    rewrite Heff in Hin. apply in_app_or in Hin as [Hin | Hin].
    { apply Hleave in Hin. unfold is_verdict in Hin. rewrite Hdraw, orb_true_r in Hin.
      discriminate. }
    match type of Hin with In _ (verdict ?x1 ?x2 ?x3 ?x4 ?x5) =>
      destruct (verdict_cases x1 x2 x3 x4 x5)
        as [Hv | [ (x & Hv & _ & Hnd' & _) | (x & Hv & _ & _ & _ & H9 & Hno) ] ];
      rewrite Hv in Hin; simpl in Hin end.
    + tauto.
    + destruct Hin as [<- | [] ]. congruence.
    + rewrite total_moves_after in H9. unfold room0 in H9. simpl in H9.
      rewrite length_app in H9. simpl in H9.
      assert (Hl2 : l2 = []).
      { rewrite Hps, length_app in Hlen. simpl in Hlen.
        destruct l2; [reflexivity | simpl in Hlen; lia]. }
      subst l2. split; [reflexivity|]. rewrite Hafter, Hps.
      split; [apply lookup_insert_eq|].
      split.
      * rewrite total_moves_after, <- Hps. unfold room0. simpl. lia.
      * rewrite Hq in Hno. exact Hno.
Qed.

Lemma nine_moves_verdict_witness :
  exists e, In e (trace (play drawn_game room_R1)) /\ is_verdict e = true.
Proof.
  apply (nine_moves_verdict room_R1 "R1" "userA" "userB" "Ann" "Bob" drawn_game).
  - discriminate.
  - vm_compute. reflexivity.
  - unfold drawn_game, byA, byB. nine_moves_tac.
Defined.

(** ** Countdowns *)

Lemma countdown_length n : length (countdown n) = S n.
Proof. induction n as [|n IH]; simpl; [reflexivity|]. now rewrite IH. Qed.

Lemma countdown_nth n k d :
  (k <= n)%nat -> nth k (countdown n) d = Z.of_nat n - Z.of_nat k.
Proof.
  revert k. induction n as [|n IH]; intros k Hk.
  - assert (k = 0%nat) as -> by lia. reflexivity.
  - destruct k as [|k]; [simpl; lia|].
    change (nth (S k) (countdown (S n)) d) with (nth k (countdown n) d).
    rewrite IH by lia. lia.
Qed.

Section ClockProofs.

Variable calculateTime : Z -> string.

Lemma timer_lookup (w : World) id t :
  timers w !! id = Some (Some t) -> mjoin (timers w !! id) = Some t.
Proof. intros ->. reflexivity. Qed.

Lemma fire_race_tick now id (w : World) gid t g :
  timers w !! id = Some (Some (RaceTick gid t g)) ->
  0 <= t ->
  fire calculateTime now id w =
  mkWorld (db w) (<[id := Some (RaceTick gid (t - 1) g)]> (timers w))
          (log w ++ [race_tick calculateTime gid t]).
Proof.
  intros H Ht. unfold fire. rewrite (timer_lookup _ _ _ H).
  replace (0 <=? t)%Z with true by (symmetry; now apply Z.leb_le).
  reflexivity.
Qed.

Lemma fire_race_end now id (w : World) gid t g :
  timers w !! id = Some (Some (RaceTick gid t g)) ->
  t < 0 ->
  fire calculateTime now id w =
  mkWorld (<[gid := with_isOver true g]> (db w)) (<[id := None]> (timers w))
          (log w ++ [Saved gid (with_isOver true g);
                     Emit (ToRoom gid) "update-game" (PGame (Some (with_isOver true g)));
                     IntervalCleared id]).
Proof.
  intros H Ht. unfold fire. rewrite (timer_lookup _ _ _ H).
  replace (0 <=? t)%Z with false by (symmetry; now apply Z.leb_gt).
  unfold clearInterval, emit, save. simpl. now rewrite <- !app_assoc.
Qed.

Lemma fire_lobby_tick now id (w : World) gid c game :
  timers w !! id = Some (Some (LobbyTick gid c game)) ->
  0 <= c ->
  fire calculateTime now id w =
  mkWorld (db w) (<[id := Some (LobbyTick gid (c - 1) game)]> (timers w))
          (log w ++ lobby_tick gid game c).
Proof.
  intros H Hc. unfold fire. rewrite (timer_lookup _ _ _ H).
  replace (0 <=? c)%Z with true by (symmetry; now apply Z.leb_le).
  unfold set_closure, emit, lobby_tick. simpl. now rewrite <- !app_assoc.
Qed.

Lemma fire_cleared now id (w : World) :
  timers w !! id = Some None -> fire calculateTime now id w = w.
Proof. intros H. unfold fire. now rewrite H. Qed.

(** A race countdown at [n] ticks [n + 1] times and stops at -1. *)
Lemma race_ticks now id gid g n : forall w : World,
  timers w !! id = Some (Some (RaceTick gid (Z.of_nat n) g)) ->
  fire_n calculateTime (S n) now id w =
  mkWorld (db w) (<[id := Some (RaceTick gid (-1) g)]> (timers w))
          (log w ++ map (race_tick calculateTime gid) (countdown n)).
Proof.
  induction n as [|n IH]; intros w H.
  - simpl. now rewrite (fire_race_tick _ _ _ _ _ _ H).
  - change (fire_n calculateTime (S (S n)) now id w)
      with (fire_n calculateTime (S n) now id (fire calculateTime now id w)).
    rewrite (fire_race_tick _ _ _ _ _ _ H) by lia.
    replace (Z.of_nat (S n) - 1) with (Z.of_nat n) by lia.
    rewrite IH.
    + simpl. rewrite list_insert_insert_eq, <- app_assoc. reflexivity.
    + simpl. apply list_lookup_insert_eq. now apply lookup_lt_Some in H.
Qed.

Lemma lobby_ticks now id gid game n : forall w : World,
  timers w !! id = Some (Some (LobbyTick gid (Z.of_nat n) game)) ->
  fire_n calculateTime (S n) now id w =
  mkWorld (db w) (<[id := Some (LobbyTick gid (-1) game)]> (timers w))
          (log w ++ flat_map (lobby_tick gid game) (countdown n)).
Proof.
  induction n as [|n IH]; intros w H.
  - simpl. now rewrite (fire_lobby_tick _ _ _ _ _ _ H).
  - change (fire_n calculateTime (S (S n)) now id w)
      with (fire_n calculateTime (S n) now id (fire calculateTime now id w)).
    rewrite (fire_lobby_tick _ _ _ _ _ _ H) by lia.
    replace (Z.of_nat (S n) - 1) with (Z.of_nat n) by lia.
    rewrite IH.
    + simpl. rewrite list_insert_insert_eq, <- !app_assoc. reflexivity.
    + simpl. apply list_lookup_insert_eq. now apply lookup_lt_Some in H.
Qed.

Lemma fire_n_snoc n now id (w : World) :
  fire_n calculateTime (S n) now id w =
  fire calculateTime now id (fire_n calculateTime n now id w).
Proof.
  revert w. induction n as [|n IH]; intros w; [reflexivity|].
  change (fire_n calculateTime (S (S n)) now id w)
    with (fire_n calculateTime (S n) now id (fire calculateTime now id w)).
  now rewrite IH.
Qed.

Lemma startGameClock_found now gid (w : World) game :
  findById w gid = Some game ->
  startGameClock now gid w =
  mkWorld (<[gid := with_startTime now game]> (db w))
          (timers w ++ [Some (RaceTick gid 120 (with_startTime now game))])
          (log w ++ [Saved gid (with_startTime now game); IntervalSet (length (timers w))]).
Proof.
  intros H. unfold startGameClock. rewrite H.
  unfold setInterval, save. simpl. now rewrite <- app_assoc.
Qed.

Lemma fire_lobby_end now id (w : World) gid c g :
  timers w !! id = Some (Some (LobbyTick gid c (Some g))) ->
  c < 0 ->
  fire calculateTime now id w =
  mkWorld (<[gid := with_startTime now (with_isOpen false g)]>
             (<[gid := with_isOpen false g]> (db w)))
          (<[id := None]> (timers w)
             ++ [Some (RaceTick gid 120 (with_startTime now (with_isOpen false g)))])
          (log w ++ [Saved gid (with_isOpen false g);
                     Emit (ToRoom gid) "update-game" (PGame (Some (with_isOpen false g)));
                     IntervalCleared id;
                     Saved gid (with_startTime now (with_isOpen false g));
                     IntervalSet (length (timers w))]).
Proof.
  intros H Hc. unfold fire. rewrite (timer_lookup _ _ _ H).
  replace (0 <=? c)%Z with false by (symmetry; now apply Z.leb_gt).
  erewrite startGameClock_found.
  - unfold clearInterval, emit, save. cbn [db timers log].
    rewrite length_insert, <- !app_assoc. reflexivity.
  - unfold findById, clearInterval, emit, save. cbn [db]. apply lookup_insert_eq.
Qed.

(** C5: a race countdown started for a reachable game broadcasts exactly 121
    ticks, for the counts 120 down to 0, while the game is not yet marked
    finished; the next firing sets [isOver], saves the game, broadcasts the
    final snapshot and clears the interval, after which the timer is silent. *)
Theorem race_countdown now now' gid (w : World) game :
  findById w gid = Some game ->
  let id := length (timers w) in
  let started := with_startTime now game in
  let finished := with_isOver true started in
  let w121 := fire_n calculateTime 121 now' id (startGameClock now gid w) in
  let w122 := fire calculateTime now' id w121 in
  log w121 = log w ++ [Saved gid started; IntervalSet id]
                   ++ map (race_tick calculateTime gid) (countdown 120) /\
  length (countdown 120) = 121%nat /\
  (forall k, (k <= 120)%nat -> nth k (countdown 120) (-1) = 120 - Z.of_nat k) /\
  db w121 !! gid = Some started /\
  log w122 = log w121 ++ [Saved gid finished;
                          Emit (ToRoom gid) "update-game" (PGame (Some finished));
                          IntervalCleared id] /\
  db w122 !! gid = Some finished /\
  isOver finished = true /\
  timers w122 !! id = Some None /\
  fire calculateTime now' id w122 = w122.
Proof.
  intros Hgame id started finished w121 w122.
  pose proof (startGameClock_found now gid w game Hgame) as E0.
  fold started id in E0.
  assert (Hl : timers (startGameClock now gid w) !! id
               = Some (Some (RaceTick gid (Z.of_nat 120) started))).
  { rewrite E0. cbn [timers]. now apply list_lookup_middle. }
  pose proof (race_ticks now' id gid started 120 _ Hl) as E121.
  fold w121 in E121. rewrite E0 in E121. cbn [db timers log] in E121.
  assert (Hid : (id < length (timers w ++ [Some (RaceTick gid 120 started)]))%nat).
  { rewrite length_app. simpl. unfold id. lia. }
  assert (Hl' : timers w121 !! id = Some (Some (RaceTick gid (-1) started))).
  { rewrite E121. cbn [timers]. now apply list_lookup_insert_eq. }
  pose proof (fire_race_end now' id w121 gid (-1) started Hl' ltac:(lia)) as E122.
  fold w122 finished in E122.
  assert (Hcleared : timers w122 !! id = Some None).
  { rewrite E122. cbn [timers]. apply list_lookup_insert_eq.
    rewrite E121. cbn [timers]. now rewrite length_insert. }
  split. { rewrite E121. cbn [log]. now rewrite <- app_assoc. }
  split. { apply countdown_length. }
  split. { intros k Hk. now rewrite countdown_nth. }
  split. { rewrite E121. cbn [db]. apply lookup_insert_eq. }
  split. { rewrite E122. reflexivity. }
  split. { rewrite E122. cbn [db]. apply lookup_insert_eq. }
  split. { reflexivity. }
  split. { exact Hcleared. }
  now apply fire_cleared.
Qed.

(** C4: a lobby countdown started by a party leader broadcasts exactly 6
    ticks to the game's room, with the counts 5, 4, 3, 2, 1, 0 and the game
    still unchanged; the next firing closes the game ([isOpen = false]),
    saves it, broadcasts the final snapshot, clears the interval and starts
    the race countdown. *)
Theorem lobby_countdown now payload (w : World) game p :
  findById w (tp_gameId payload) = Some game ->
  players_id (tp_playerId payload) game = Some p ->
  isPartyLeader p = true ->
  let gid := tp_gameId payload in
  let id := length (timers w) in
  let closed := with_isOpen false game in
  let started := with_startTime now closed in
  let w6 := fire_n calculateTime 6 now id (timer_handler payload w) in
  let w7 := fire calculateTime now id w6 in
  log w6 = log w ++ [IntervalSet id]
                 ++ flat_map (lobby_tick gid (Some game)) [5; 4; 3; 2; 1; 0] /\
  db w6 = db w /\
  log w7 = log w6 ++ [Saved gid closed;
                      Emit (ToRoom gid) "update-game" (PGame (Some closed));
                      IntervalCleared id;
                      Saved gid started;
                      IntervalSet (S id)] /\
  isOpen closed = false /\
  db w7 !! gid = Some started /\
  timers w7 !! id = Some None /\
  timers w7 !! S id = Some (Some (RaceTick gid 120 started)).
Proof.
  intros Hgame Hplayer Hlead gid id closed started w6 w7.
  assert (E0 : timer_handler payload w =
               mkWorld (db w) (timers w ++ [Some (LobbyTick gid 5 (Some game))])
                       (log w ++ [IntervalSet id])).
  { unfold timer_handler. rewrite Hgame. simpl. rewrite Hplayer, Hlead.
    reflexivity. }
  assert (Hl : timers (timer_handler payload w) !! id
               = Some (Some (LobbyTick gid (Z.of_nat 5) (Some game)))).
  { rewrite E0. cbn [timers]. now apply list_lookup_middle. }
  pose proof (lobby_ticks now id gid (Some game) 5 _ Hl) as E6.
  fold w6 in E6. rewrite E0 in E6. cbn [db timers log] in E6.
  assert (Hid : (id < length (timers w ++ [Some (LobbyTick gid 5 (Some game))]))%nat).
  { rewrite length_app. simpl. unfold id. lia. }
  assert (Hl' : timers w6 !! id = Some (Some (LobbyTick gid (-1) (Some game)))).
  { rewrite E6. cbn [timers]. now apply list_lookup_insert_eq. }
  pose proof (fire_lobby_end now id w6 gid (-1) game Hl' ltac:(lia)) as E7.
  fold w7 closed started in E7.
  assert (Hlen6 : length (timers w6) = S id).
  { rewrite E6. cbn [timers]. rewrite length_insert, length_app. simpl. unfold id. lia. }
  rewrite Hlen6 in E7.
  split. { rewrite E6. cbn [log]. now rewrite <- app_assoc. }
  split. { rewrite E6. reflexivity. }
  split. { rewrite E7. reflexivity. }
  split. { reflexivity. }
  split. { rewrite E7. cbn [db]. apply lookup_insert_eq. }
  split.
  { rewrite E7. cbn [timers]. rewrite lookup_app_l.
    - apply list_lookup_insert_eq. rewrite Hlen6. lia.
    - rewrite length_insert, Hlen6. lia. }
  rewrite E7. cbn [timers]. apply list_lookup_middle.
  now rewrite length_insert.
Qed.

End ClockProofs.

Lemma race_countdown_witness :
  length (countdown 120) = 121%nat /\
  db (fire_n mmss 122 1000 0 (startGameClock 7 "g" world_g)) !! "g"
  = Some (with_isOver true (with_startTime 7 race_game)).
Proof.
  pose proof (race_countdown mmss 7 1000 "g" world_g race_game
                ltac:(vm_compute; reflexivity)) as H.
  cbv zeta in H. split; [apply H|].
  rewrite fire_n_snoc. apply H.
Defined.

Lemma lobby_countdown_witness :
  timers (fire_n mmss 7 1000 0 (timer_handler lead_request world_g)) !! 1%nat
  = Some (Some (RaceTick "g" 120 (with_startTime 1000 (with_isOpen false race_game)))).
Proof.
  pose proof (lobby_countdown mmss 1000 lead_request world_g race_game
                (mkPlayer "lead" true)
                ltac:(vm_compute; reflexivity) ltac:(reflexivity) ltac:(reflexivity)) as H.
  cbv zeta in H. rewrite fire_n_snoc. apply H.
Defined.

(** ** Who may start the lobby countdown *)

(** C8, as stated, fails: the request of a participant who is not the party
    leader gets no answer at all, so no rejection either. *)
Lemma non_leader_counterexample :
  (findById world_g "g" ≫= players_id "guest") = Some (mkPlayer "guest" false) /\
  ~ exists e, In e (log (timer_handler guest_request world_g)) /\ is_rejection e = true.
Proof.
  split; [vm_compute; reflexivity|].
  intros [e [Hin _] ]. vm_compute in Hin. exact Hin.
Qed.

(** C8, amended: a [timer] request whose player id is not that of a party
    leader installs no interval, so no countdown tick follows, and nothing is
    saved; no rejection is sent.  A participant who is not the leader gets no
    emission at all; an unknown player id gets the room one [timer] notice
    with count 0 and the note that there is no player, then the game
    snapshot. *)
Theorem non_leader_starts_nothing payload (w : World) :
  let gid := tp_gameId payload in
  let player := findById w gid ≫= players_id (tp_playerId payload) in
  match player with Some p => isPartyLeader p = false | None => True end ->
  let w' := timer_handler payload w in
  timers w' = timers w /\
  db w' = db w /\
  log w' = log w ++
    match player with
    | Some _ => []
    | None => [Emit (ToRoom gid) "timer" (PCount 0 "There is no Player, Try Again");
               Emit (ToRoom gid) "update-game" (PGame (findById w gid))]
    end /\
  (forall e, In e (log w') -> In e (log w) \/ (is_tick e = false /\ is_rejection e = false)).
Proof.
  intros gid player Hnl w'.
  assert (E : w' = mkWorld (db w) (timers w)
                (log w ++ match player with
                          | Some _ => []
                          | None => [Emit (ToRoom gid) "timer"
                                       (PCount 0 "There is no Player, Try Again");
                                     Emit (ToRoom gid) "update-game" (PGame (findById w gid))]
                          end)).
  { subst w'. unfold timer_handler. fold gid. fold player.
    destruct player as [p|].
    - rewrite Hnl, app_nil_r. now destruct w.
    - unfold emit. simpl. now rewrite <- app_assoc. }
  rewrite E. cbn [timers db log]. repeat split.
  intros e Hin. apply in_app_or in Hin as [Hin | Hin]; [now left|]. right.
  destruct player; simpl in Hin; [tauto|].
  destruct Hin as [<- | [<- | [] ] ]; split; reflexivity.
Qed.

Lemma non_leader_starts_nothing_witness :
  timers (timer_handler guest_request world_g) = timers world_g.
Proof.
  apply (non_leader_starts_nothing guest_request world_g).
  vm_compute. reflexivity.
Defined.

(** ** Duplicate race countdowns *)

(** C9, as stated, fails: when the leader's request arrives twice, the second
    lobby countdown ends while the race countdown of the first is active, and
    a second race countdown is installed for the same game. *)
Lemma duplicate_race_counterexample :
  active_races "g" once_started = 1%nat /\
  active_races "g" twice_started = 2%nat.
Proof. split; vm_compute; reflexivity. Qed.

(** C9, amended: [startGameClock] keeps no record of running countdowns.
    Every call for a reachable game installs one more race countdown for that
    game, whatever is already active; a call for an unknown game installs
    none and changes nothing. *)
Theorem startGameClock_adds_timer now gid (w : World) :
  match findById w gid with
  | Some _ => active_races gid (startGameClock now gid w) = S (active_races gid w)
  | None => startGameClock now gid w = w
  end.
Proof.
  destruct (findById w gid) as [game|] eqn:Hgame.
  - rewrite (startGameClock_found now gid w game Hgame).
    unfold active_races. cbn [timers]. rewrite List.filter_app, length_app.
    simpl. rewrite String.eqb_refl. simpl. lia.
  - unfold startGameClock. now rewrite Hgame.
Qed.

(** ** Further properties of the [move] handler *)

Lemma for_room_true rid p : for_room rid p = true <-> pl_roomId p = rid.
Proof. unfold for_room. apply String.eqb_eq. Qed.

Lemma for_room_false rid p : for_room rid p = false <-> pl_roomId p <> rid.
Proof. unfold for_room. apply String.eqb_neq. Qed.

Lemma move_handler_other_room payload (rooms : gmap string Room) rid :
  rid <> pl_roomId payload ->
  rooms_after (move_handler payload rooms) !! rid = rooms !! rid.
Proof.
  intros Hne. unfold move_handler, GetGameDetail.
  destruct (rooms !! pl_roomId payload); simpl; [|reflexivity].
  now apply lookup_insert_ne.
Qed.

(** X1: a [move] action touches the addressed room only: every other room of
    the store is as it was, and no room is created or removed. *)
Theorem move_leaves_other_rooms payload (rooms : gmap string Room) rid :
  rid <> pl_roomId payload ->
  rooms_after (move_handler payload rooms) !! rid = rooms !! rid /\
  dom (rooms_after (move_handler payload rooms)) = dom rooms.
Proof.
  intros Hne. split; [now apply move_handler_other_room|].
  destruct (rooms !! pl_roomId payload) as [room|] eqn:Hroom.
  - rewrite (move_handler_rooms_after _ _ _ Hroom).
    apply dom_insert_lookup_L. rewrite Hroom. eauto.
  - now rewrite (move_handler_missing _ _ Hroom).
Qed.

Lemma move_leaves_other_rooms_witness :
  rooms_after (move_handler (byA 4) rooms_R1_R2) !! "R2" = rooms_R1_R2 !! "R2".
Proof.
  apply (move_leaves_other_rooms (byA 4) rooms_R1_R2 "R2"). discriminate.
Defined.

(** The room under [rid] after any sequence of actions is the room after the
    pushes of the actions addressed to it. *)
Lemma final_rooms_room rid ps : forall (rooms : gmap string Room) room,
  rooms !! rid = Some room ->
  final_rooms ps rooms !! rid = Some (room_after room (List.filter (for_room rid) ps)).
Proof.
  induction ps as [|p ps IH]; intros rooms room Hroom; simpl; [assumption|].
  destruct (for_room rid p) eqn:Hp.
  - apply for_room_true in Hp. subst rid. simpl. apply IH.
    rewrite (move_handler_rooms_after _ _ _ Hroom). apply lookup_insert_eq.
  - apply for_room_false in Hp. apply IH.
    rewrite move_handler_other_room by congruence. assumption.
Qed.

Lemma room_after_names room ps :
  userId (user1 (room_after room ps)) = userId (user1 room) /\
  username (user1 (room_after room ps)) = username (user1 room) /\
  userId (user2 (room_after room ps)) = userId (user2 room) /\
  username (user2 (room_after room ps)) = username (user2 room).
Proof.
  induction ps as [|p ps IH] using rev_ind; [auto|].
  rewrite room_after_snoc. unfold record_move.
  destruct (is_user1 _ _); simpl; tauto.
Qed.

(** X2: whatever sequence of [move] actions is processed, a room keeps the
    user ids and names of both slots, and its move sequences only grow at the
    end: slot 1 by the moves of the actions for this room that carry slot 1's
    user id, slot 2 by the moves of all other actions for this room, each in
    the order of arrival. *)
Theorem moves_are_append_only ps (rooms : gmap string Room) rid room :
  rooms !! rid = Some room ->
  exists room',
    final_rooms ps rooms !! rid = Some room' /\
    userId (user1 room') = userId (user1 room) /\
    username (user1 room') = username (user1 room) /\
    userId (user2 room') = userId (user2 room) /\
    username (user2 room') = username (user2 room) /\
    moves (user1 room') =
      moves (user1 room) ++
      map pl_move (List.filter (fun p => is_user1 room (pl_userId p))
                     (List.filter (for_room rid) ps)) /\
    moves (user2 room') =
      moves (user2 room) ++
      map pl_move (List.filter (fun p => negb (is_user1 room (pl_userId p)))
                     (List.filter (for_room rid) ps)).
Proof.
  intros Hroom. exists (room_after room (List.filter (for_room rid) ps)).
  split; [now apply final_rooms_room|].
  destruct (room_after_names room (List.filter (for_room rid) ps)) as (-> & -> & -> & ->).
  destruct (room_after_moves room (List.filter (for_room rid) ps)) as [-> ->].
  repeat split.
Qed.

Lemma moves_are_append_only_witness :
  exists room',
    final_rooms win_then_draw room_R1 !! "R1" = Some room' /\
    moves (user1 room') = [0; 1; 2; 5; 6] /\
    moves (user2 room') = [3; 4; 7; 8].
Proof.
  destruct (moves_are_append_only win_then_draw room_R1 "R1"
              (fresh_room "userA" "userB" "Ann" "Bob")
              ltac:(vm_compute; reflexivity))
    as (room' & H & _ & _ & _ & _ & H1 & H2).
  exists room'. split; [exact H|]. split; [exact H1 | exact H2].
Defined.

(** X3: no action addressed to an existing room is dropped: after any
    sequence of [move] actions the room holds as many more moves as actions
    were addressed to it, whoever sent them and whatever cells they name. *)
Theorem every_move_is_counted ps (rooms : gmap string Room) rid room :
  rooms !! rid = Some room ->
  exists room',
    final_rooms ps rooms !! rid = Some room' /\
    total_moves room' = (total_moves room + length (List.filter (for_room rid) ps))%nat.
Proof.
  intros Hroom. exists (room_after room (List.filter (for_room rid) ps)).
  split; [now apply final_rooms_room|].
  apply total_moves_after.
Qed.

Lemma every_move_is_counted_witness :
  exists room',
    final_rooms (byA 0 :: mkMove "R2" (Some "userA") 1 :: [byC 0]) room_R1 !! "R1"
      = Some room' /\
    total_moves room' = 2%nat.
Proof.
  apply (every_move_is_counted (byA 0 :: mkMove "R2" (Some "userA") 1 :: [byC 0])
           room_R1 "R1" (fresh_room "userA" "userB" "Ann" "Bob")).
  vm_compute. reflexivity.
Defined.

(** X4: the handler checks neither turns nor occupied cells: the same action
    submitted twice in a row is processed twice, and the cell is recorded
    twice in the sender's move sequence. *)
Theorem same_cell_twice payload (rooms : gmap string Room) room :
  rooms !! pl_roomId payload = Some room ->
  let first := move_handler payload rooms in
  let second := move_handler payload (rooms_after first) in
  outcome first = Completed /\ outcome second = Completed /\
  exists room'',
    rooms_after second !! pl_roomId payload = Some room'' /\
    moves (slot_of room'' (pl_userId payload)) =
      moves (slot_of room (pl_userId payload)) ++ [pl_move payload; pl_move payload].
Proof.
  intros Hroom first second.
  assert (H1 : rooms_after first !! pl_roomId payload
               = Some (record_move room (pl_userId payload) (pl_move payload))).
  { subst first. rewrite (move_handler_rooms_after _ _ _ Hroom). apply lookup_insert_eq. }
  split.
  { subst first. destruct (move_handler_found payload _ _ Hroom) as [l [_ ->] ]. reflexivity. }
  split.
  { subst second. destruct (move_handler_found payload _ _ H1) as [l [_ ->] ]. reflexivity. }
  eexists. split.
  - subst second. rewrite (move_handler_rooms_after _ _ _ H1). apply lookup_insert_eq.
  - rewrite !record_move_slot. simpl. now rewrite <- app_assoc.
Qed.

Lemma same_cell_twice_witness :
  exists room'',
    rooms_after (move_handler (byA 4) (rooms_after (move_handler (byA 4) room_R1))) !! "R1"
      = Some room'' /\
    moves (slot_of room'' (Some "userA")) = [] ++ [4; 4].
Proof.
  apply (same_cell_twice (byA 4) room_R1 (fresh_room "userA" "userB" "Ann" "Bob")).
  vm_compute. reflexivity.
Defined.







Lemma userLeave_falsy_run payload (rooms : gmap string Room) room :
  rooms !! pl_roomId payload = Some room ->
  truthy (userId (user1 room)) = false \/ truthy (userId (user2 room)) = false ->
  exists rest,
    effects (move_handler payload rooms) =
      Emit (ToRoom (pl_roomId payload)) "userLeave" PEmpty :: rest.
Proof.
  intros Hroom Hfalsy. unfold move_handler, GetGameDetail. rewrite Hroom.
  replace (negb (truthy (userId (user1 room))) || negb (truthy (userId (user2 room))))
    with true by (destruct Hfalsy as [-> | ->]; simpl; now rewrite ?orb_true_r).
  simpl. eauto.
Qed.

(** X7: the [userLeave] notice of the [move] handler is sent exactly when one
    of the two slots has no user id or an empty one; with both slots bound a
    run starts with the move notice. *)
Theorem userLeave_iff_unbound payload (rooms : gmap string Room) room :
  rooms !! pl_roomId payload = Some room ->
  In (Emit (ToRoom (pl_roomId payload)) "userLeave" PEmpty)
     (effects (move_handler payload rooms)) <->
  truthy (userId (user1 room)) = false \/ truthy (userId (user2 room)) = false.
Proof.
  intros Hroom. split.
  - intros Hin. unfold move_handler, GetGameDetail in Hin. rewrite Hroom in Hin.
    destruct (truthy (userId (user1 room))); [|now left].
    destruct (truthy (userId (user2 room))); [|now right].
    simpl in Hin. destruct Hin as [H | Hin]; [discriminate H|].
    apply verdict_only_verdicts in Hin. discriminate Hin.
  - intros H.
    destruct (userLeave_falsy_run payload rooms room Hroom H) as [rest ->].
    now left.
Qed.

Lemma userLeave_iff_unbound_witness :
  In (Emit (ToRoom "R1") "userLeave" PEmpty) (effects (move_handler (byA 0) room_half)) <->
  truthy (Some "userA") = false \/ truthy None = false.
Proof.
  apply (userLeave_iff_unbound (byA 0) room_half
           (mkRoom (mkSlot (Some "userA") "Ann" []) (mkSlot None "" []))).
  vm_compute. reflexivity.
Defined.

(** A run depends on the store through the addressed room only. *)
Lemma move_handler_local payload (rooms1 rooms2 : gmap string Room) :
  rooms1 !! pl_roomId payload = rooms2 !! pl_roomId payload ->
  effects (move_handler payload rooms1) = effects (move_handler payload rooms2) /\
  outcome (move_handler payload rooms1) = outcome (move_handler payload rooms2) /\
  rooms_after (move_handler payload rooms1) !! pl_roomId payload =
  rooms_after (move_handler payload rooms2) !! pl_roomId payload.
Proof.
  intros Heq. unfold move_handler, GetGameDetail. rewrite Heq.
  destruct (rooms2 !! pl_roomId payload) as [room|] eqn:Hroom; simpl;
    [|repeat split; congruence].
  rewrite !lookup_insert_eq. repeat split.
  unfold verdict. rewrite !(CheckWin_found _ _ _ _ (lookup_insert_eq _ _ _)).
  reflexivity.
Qed.

Lemma effects_for_cons rid p ps (rooms : gmap string Room) :
  effects_for rid (p :: ps) rooms =
  (if for_room rid p then effects (move_handler p rooms) else [])
  ++ effects_for rid ps (rooms_after (move_handler p rooms)).
Proof. reflexivity. Qed.

Lemma effects_for_agree rid ps : forall rooms1 rooms2 : gmap string Room,
  rooms1 !! rid = rooms2 !! rid ->
  effects_for rid ps rooms1 = trace (play (List.filter (for_room rid) ps) rooms2).
Proof.
  induction ps as [|p ps IH]; intros rooms1 rooms2 Heq; [reflexivity|].
  rewrite effects_for_cons. simpl. destruct (for_room rid p) eqn:Hp.
  - apply for_room_true in Hp. subst rid.
    destruct (move_handler_local p rooms1 rooms2 Heq) as (He & _ & Hr).
    simpl. unfold trace. simpl. fold (trace (play (List.filter (for_room (pl_roomId p)) ps)
                                               (rooms_after (move_handler p rooms2)))).
    rewrite He. f_equal. now apply IH.
  - apply for_room_false in Hp. simpl. apply IH.
    rewrite move_handler_other_room by congruence. assumption.
Qed.

(** X8: rooms do not interfere.  In any sequence of [move] actions, what is
    emitted for a room and the state the room ends in are those of the
    actions addressed to that room alone, run in the same order. *)
Theorem rooms_do_not_interfere rid ps (rooms : gmap string Room) :
  effects_for rid ps rooms = trace (play (List.filter (for_room rid) ps) rooms) /\
  final_rooms ps rooms !! rid = final_rooms (List.filter (for_room rid) ps) rooms !! rid.
Proof.
  split; [now apply effects_for_agree|].
  destruct (rooms !! rid) as [room|] eqn:Hroom.
  - rewrite (final_rooms_room rid ps rooms room Hroom).
    rewrite (final_rooms_room rid _ rooms room Hroom).
    f_equal. f_equal. clear. induction ps as [|p ps IH]; simpl; [reflexivity|].
    destruct (for_room rid p) eqn:Hp; simpl; [rewrite Hp|]; now rewrite <- IH.
  - assert (Hnone : forall qs (rs : gmap string Room),
              rs !! rid = None -> final_rooms qs rs !! rid = None).
    { induction qs as [|q qs IH]; intros rs Hrs; simpl; [assumption|].
      apply IH. destruct (decide (rid = pl_roomId q)) as [-> | Hne].
      - now rewrite (move_handler_missing _ _ Hrs).
      - now rewrite move_handler_other_room. }
    now rewrite !Hnone.
Qed.

(** X9: the handler never creates a room.  Actions addressed to room ids the
    store does not hold all end in the [catch] block, emit nothing and leave
    the store as it was. *)
Theorem unknown_rooms_are_ignored ps (rooms : gmap string Room) :
  Forall (fun p => rooms !! pl_roomId p = None) ps ->
  final_rooms ps rooms = rooms /\
  trace (play ps rooms) = [] /\
  Forall (fun r => outcome r = Caught) (play ps rooms).
Proof.
  induction 1 as [|p ps Hp Hall IH]; simpl; [repeat split; constructor|].
  rewrite (move_handler_missing _ _ Hp). simpl.
  destruct IH as (H1 & H2 & H3). repeat split; [assumption..|].
  constructor; [reflexivity | assumption].
Qed.

Lemma unknown_rooms_are_ignored_witness :
  final_rooms [mkMove "R9" (Some "userA") 0; mkMove "R7" None 4] room_R1 = room_R1.
Proof.
  apply (unknown_rooms_are_ignored [mkMove "R9" (Some "userA") 0; mkMove "R7" None 4] room_R1).
  repeat constructor.
Defined.

(** ** Further properties of the countdowns *)

Section ClockFrames.

Variable calculateTime : Z -> string.

Lemma fire_other_handle now j id (w : World) x :
  j <> id ->
  timers w !! id = Some x ->
  timers (fire calculateTime now j w) !! id = Some x.
Proof.
  intros Hne Hid. unfold fire.
  destruct (mjoin (timers w !! j)) as [ [gid c game | gid t g] |]; [| |assumption].
  - destruct (0 <=? c)%Z.
    + cbn [timers set_closure emit]. now rewrite list_lookup_insert_ne.
    + destruct game as [g|]; [|assumption].
      unfold startGameClock, findById, clearInterval, emit, save. cbn [db timers log].
      rewrite lookup_insert_eq. cbn [timers setInterval].
      apply lookup_app_l_Some. now rewrite list_lookup_insert_ne.
  - destruct (0 <=? t)%Z.
    + cbn [timers set_closure emit]. now rewrite list_lookup_insert_ne.
    + cbn [timers clearInterval emit save]. now rewrite list_lookup_insert_ne.
Qed.

Lemma fire_handles_grow now j (w : World) :
  (length (timers w) <= length (timers (fire calculateTime now j w)))%nat.
Proof.
  unfold fire.
  destruct (mjoin (timers w !! j)) as [ [gid c game | gid t g] |]; [| |lia].
  - destruct (0 <=? c)%Z.
    + cbn [timers set_closure emit]. rewrite length_insert. lia.
    + destruct game as [g|]; [|lia].
      unfold startGameClock, findById, clearInterval, emit, save. cbn [db timers log].
      rewrite lookup_insert_eq. cbn [timers setInterval].
      rewrite length_app, length_insert. lia.
  - destruct (0 <=? t)%Z.
    + cbn [timers set_closure emit]. rewrite length_insert. lia.
    + cbn [timers clearInterval emit save]. rewrite length_insert. lia.
Qed.

(** X11: firing one interval callback leaves every other handle as it was,
    with its captured counter and game, and no handle is ever taken out of
    the table. *)
Theorem firing_leaves_other_handles now j id (w : World) x :
  j <> id ->
  timers w !! id = Some x ->
  timers (fire calculateTime now j w) !! id = Some x /\
  (length (timers w) <= length (timers (fire calculateTime now j w)))%nat.
Proof.
  intros Hne Hid. split; [now apply fire_other_handle | apply fire_handles_grow].
Qed.

(** X12: a race countdown advances by its own firings only.  Under any
    schedule of firings in which its handle occurs at most [time + 1] times,
    the countdown ends up lowered by exactly that number of occurrences,
    whatever other callbacks ran in between. *)
Theorem race_advances_by_own_firings now sched id gid g : forall (w : World) t,
  timers w !! id = Some (Some (RaceTick gid t g)) ->
  Z.of_nat (count_occ Nat.eq_dec sched id) <= t + 1 ->
  timers (fire_all calculateTime now sched w) !! id
  = Some (Some (RaceTick gid (t - Z.of_nat (count_occ Nat.eq_dec sched id)) g)).
Proof.
  induction sched as [|j sched IH]; intros w t Hid Hcount.
  - simpl. now rewrite Z.sub_0_r.
  - cbn [fire_all]. destruct (Nat.eq_dec j id) as [-> | Hne].
    + rewrite count_occ_cons_eq in * by reflexivity.
      rewrite (fire_race_tick calculateTime now id w gid t g Hid) by lia.
      rewrite (IH _ (t - 1)).
      * f_equal. f_equal. f_equal. lia.
      * cbn [timers]. apply list_lookup_insert_eq. now apply lookup_lt_Some in Hid.
      * lia.
    + rewrite count_occ_cons_neq in * by assumption.
      apply IH; [|assumption]. now apply fire_other_handle.
Qed.

(** X13: the same holds for a lobby countdown: its count goes down once per
    firing of its own handle and is untouched by all other firings. *)
Theorem lobby_advances_by_own_firings now sched id gid game : forall (w : World) c,
  timers w !! id = Some (Some (LobbyTick gid c game)) ->
  Z.of_nat (count_occ Nat.eq_dec sched id) <= c + 1 ->
  timers (fire_all calculateTime now sched w) !! id
  = Some (Some (LobbyTick gid (c - Z.of_nat (count_occ Nat.eq_dec sched id)) game)).
Proof.
  induction sched as [|j sched IH]; intros w c Hid Hcount.
  - simpl. now rewrite Z.sub_0_r.
  - cbn [fire_all]. destruct (Nat.eq_dec j id) as [-> | Hne].
    + rewrite count_occ_cons_eq in * by reflexivity.
      rewrite (fire_lobby_tick calculateTime now id w gid c game Hid) by lia.
      rewrite (IH _ (c - 1)).
      * f_equal. f_equal. f_equal. lia.
      * cbn [timers]. apply list_lookup_insert_eq. now apply lookup_lt_Some in Hid.
      * lia.
    + rewrite count_occ_cons_neq in * by assumption.
      apply IH; [|assumption]. now apply fire_other_handle.
Qed.

End ClockFrames.

Lemma firing_leaves_other_handles_witness :
  timers (fire mmss 1000 0 (timer_handler lead_request (timer_handler lead_request world_g)))
    !! 1%nat = Some (Some (LobbyTick "g" 5 (Some race_game))).
Proof.
  apply (firing_leaves_other_handles mmss 1000 0 1
           (timer_handler lead_request (timer_handler lead_request world_g))).
  - discriminate.
  - reflexivity.
Defined.

Lemma race_advances_by_own_firings_witness :
  timers (fire_all mmss 1000 [1; 0; 1; 1; 0]%nat
            (startGameClock 7 "g" (startGameClock 5 "g" world_g))) !! 1%nat
  = Some (Some (RaceTick "g" (120 - 3) (with_startTime 7 (with_startTime 5 race_game)))).
Proof.
  apply (race_advances_by_own_firings mmss 1000 [1; 0; 1; 1; 0]%nat 1 "g"
           (with_startTime 7 (with_startTime 5 race_game))
           (startGameClock 7 "g" (startGameClock 5 "g" world_g)) 120).
  - vm_compute. reflexivity.
  - vm_compute. discriminate.
Defined.

Lemma lobby_advances_by_own_firings_witness :
  timers (fire_all mmss 1000 [0; 1; 0]%nat
            (timer_handler lead_request (timer_handler lead_request world_g))) !! 1%nat
  = Some (Some (LobbyTick "g" (5 - 1) (Some race_game))).
Proof.
  apply (lobby_advances_by_own_firings mmss 1000 [0; 1; 0]%nat 1 "g" (Some race_game)
           (timer_handler lead_request (timer_handler lead_request world_g)) 5).
  - vm_compute. reflexivity.
  - vm_compute. discriminate.
Defined.

Lemma filter_insert_same {A} (f : A -> bool) (l : list A) i x y :
  l !! i = Some x -> f x = f y ->
  length (List.filter f (<[i := y]> l)) = length (List.filter f l).
Proof.
  revert i. induction l as [|a l IH]; intros i Hi Hf; [discriminate|].
  destruct i as [|i]; simpl in *.
  - injection Hi as ->. rewrite Hf. now destruct (f y).
  - specialize (IH i Hi Hf). destruct (f a); simpl; now rewrite IH.
Qed.

(** X14: every lobby countdown that reaches its end starts one more race
    countdown for its game, next to those already running for it. *)
Theorem lobby_end_adds_race calculateTime now id (w : World) gid c g :
  timers w !! id = Some (Some (LobbyTick gid c (Some g))) ->
  c < 0 ->
  active_races gid (fire calculateTime now id w) = S (active_races gid w).
Proof.
  intros Hid Hc. rewrite (fire_lobby_end calculateTime now id w gid c g Hid Hc).
  unfold active_races. cbn [timers].
  rewrite List.filter_app, length_app.
  rewrite (filter_insert_same _ _ _ _ None Hid) by reflexivity.
  simpl. rewrite String.eqb_refl. simpl. lia.
Qed.

Lemma lobby_end_adds_race_witness :
  active_races "g" (fire mmss 1000 1 (fire_n mmss 6 1000 1 once_started))
  = S (active_races "g" (fire_n mmss 6 1000 1 once_started)).
Proof.
  apply (lobby_end_adds_race mmss 1000 1 (fire_n mmss 6 1000 1 once_started)
           "g" (-1) race_game).
  - vm_compute. reflexivity.
  - reflexivity.
Defined.

(** ** The chat relay *)

Lemma newMessage_loop m us acc :
  fold_left
    (fun sent user =>
       if String.eqb (user_id user) (user_id (sender m))
       then sent
       else sent ++ [EmitIn (user_id user) "messageReceived" m])
    us acc
  = acc ++ map (fun u => EmitIn (user_id u) "messageReceived" m)
             (List.filter (fun u => negb (String.eqb (user_id u) (user_id (sender m)))) us).
Proof.
  revert acc. induction us as [|u us IH]; intros acc; simpl; [now rewrite app_nil_r|].
  rewrite IH. destruct (String.eqb (user_id u) (user_id (sender m))); simpl;
    [reflexivity | now rewrite <- app_assoc].
Qed.

(** X15: [newMessage] relays the message once for every listed user whose id
    is not the sender's, in the order of the list, each to the room named by
    that user's id, and does nothing else; when the message has no chat or
    the chat has no user list it only logs a note. *)
Theorem newMessage_relays m :
  newMessage m =
  match chat m ≫= users with
  | None => [ConsoleLog "chat.users not defined"]
  | Some us =>
      map (fun u => EmitIn (user_id u) "messageReceived" m)
          (List.filter (fun u => negb (String.eqb (user_id u) (user_id (sender m)))) us)
  end.
Proof.
  unfold newMessage. destruct (chat m ≫= users) as [us|]; [|reflexivity].
  apply (newMessage_loop m us []).
Qed.

(** X16: the sender of a message is never among the rooms [newMessage]
    addresses, even when listed in the chat; every other listed user is; and
    the emissions plus the sender's entries in the list add up to the users
    listed. *)
Theorem newMessage_skips_sender m us :
  chat m ≫= users = Some us ->
  ~ In (user_id (sender m)) (targets (newMessage m)) /\
  (forall u, In u us -> user_id u <> user_id (sender m) ->
     In (EmitIn (user_id u) "messageReceived" m) (newMessage m)) /\
  (length (newMessage m)
   + length (List.filter (fun u => String.eqb (user_id u) (user_id (sender m))) us))%nat
  = length us.
Proof.
  intros Hus. unfold newMessage. rewrite Hus, (newMessage_loop m us []). cbn [app].
  set (other u := negb (String.eqb (user_id u) (user_id (sender m)))).
  split; [|split].
  - unfold targets. rewrite in_flat_map. intros (e & He & Hin).
    apply in_map_iff in He as (u & <- & Hu).
    apply List.filter_In in Hu as [_ Hu]. simpl in Hin.
    destruct Hin as [Hin | [] ]. unfold other in Hu.
    apply String.eqb_eq in Hin. now rewrite Hin in Hu.
  - intros u Hu Hne. apply in_map_iff. exists u. split; [reflexivity|].
    apply List.filter_In. split; [assumption|].
    unfold other. apply String.eqb_neq in Hne. now rewrite Hne.
  - rewrite length_map.
    pose proof (filter_split_length other us) as Hsum.
    rewrite (List.filter_ext (fun u => negb (other u))
               (fun u => String.eqb (user_id u) (user_id (sender m)))) in Hsum
      by (intros u; unfold other; apply negb_involutive).
    exact Hsum.
Qed.

Lemma newMessage_skips_sender_witness :
  ~ In "ann" (targets (newMessage (chat_of ["ann"; "bob"; "ann"; "cat"] "ann"))).
Proof.
  apply (newMessage_skips_sender (chat_of ["ann"; "bob"; "ann"; "cat"] "ann")
           (map mkUser ["ann"; "bob"; "ann"; "cat"])).
  reflexivity.
Defined.
